(** * A verified model of [sudoku.py]

    The Python program keeps one mutable 9x9 board (a list of lists of
    integers, 0 meaning "empty"), checks it with [is_valid], [is_complete]
    and [move_valid], and searches for completions with the recursive
    procedure [solver], which prints every completed board it reaches.

    The model is a shallow embedding in a small state-and-exception monad:
    the state is the board together with the list of boards printed so far;
    a Python exception ([IndexError], [ZeroDivisionError]) is the outcome
    [Raise]; the recursion of [solver] is bounded by a fuel argument that
    counts nested activations.  Board rows are assumed to be distinct list
    objects, as in the board literal of the program.

    The main block is modelled over the lines of standard input, with the
    parsing of a line left as a parameter; the text that [print_board]
    writes is modelled line by line, beside the record of printed boards. *)

From stdpp Require Import base numbers list strings pretty.

Local Open Scope Z_scope.

(** * The model *)

(** ** Python lists indexed by integers *)

Abbreviation grid := (list (list Z)).

(** [l[i]] accepts [-len(l) <= i < len(l)]; negative indices count from the
    end; anything else raises [IndexError] (here: [None]). *)
Definition norm_index (len : nat) (i : Z) : option nat :=
  if bool_decide (0 ≤ i < Z.of_nat len) then Some (Z.to_nat i)
  else if bool_decide (- Z.of_nat len ≤ i < 0) then Some (Z.to_nat (Z.of_nat len + i))
  else None.

Definition py_index {A} (l : list A) (i : Z) : option A :=
  n ← norm_index (length l) i; l !! n.

(** [board[r][c]] *)
Definition grid_get (G : grid) (r c : Z) : option Z :=
  row ← py_index G r; py_index row c.

(** [board[r][c] = v]: the row object is updated in place. *)
Definition grid_set (G : grid) (r c v : Z) : option grid :=
  i ← norm_index (length G) r;
  row ← G !! i;
  j ← norm_index (length row) c;
  Some (<[i := <[j := v]> row]> G).

(** [range(a, b)] *)
Definition range (a b : Z) : list Z := seqZ a (b - a).

(** ** The monad of the program *)

Record state := State {
  board : grid;          (* the board object shared by all the calls *)
  stdout : list grid     (* the boards handed to [print_board], oldest first *)
}.

Inductive result (A : Type) :=
| Ok (a : A) (s : state)   (* normal return *)
| Raise (s : state)        (* an exception escaped; [s] is the state left behind *)
| OutOfFuel.               (* the model ran out of recursion fuel *)
Arguments Ok {A} a s.
Arguments Raise {A} s.
Arguments OutOfFuel {A}.

Definition M (A : Type) : Type := state → result A.

#[global] Instance M_ret : MRet M := λ A a s, Ok a s.
#[global] Instance M_bind : MBind M := λ A B f m s,
  match m s with
  | Ok a s' => f a s'
  | Raise s' => Raise s'
  | OutOfFuel => OutOfFuel
  end.

Definition raise {A} : M A := λ s, Raise s.

(** What a loop body tells the enclosing loop: go on, or leave the
    function with a value ([return] inside a [for]). *)
Inductive ctl (R : Type) := Continue | Return (r : R).
Arguments Continue {R}.
Arguments Return {R} r.

(** [for i in l: body] *)
Fixpoint for_in {R} (l : list Z) (body : Z → M (ctl R)) : M (ctl R) :=
  match l with
  | [] => mret Continue
  | i :: l' =>
      c ← body i;
      match c with
      | Continue => for_in l' body
      | Return r => mret (Return r)
      end
  end.

(** [len(board)] *)
Definition len_board : M Z := λ s, Ok (Z.of_nat (length (board s))) s.

(** [len(board[r])] *)
Definition len_row (r : Z) : M Z := λ s,
  match py_index (board s) r with
  | Some row => Ok (Z.of_nat (length row)) s
  | None => Raise s
  end.

(** [board[r][c]] as an expression *)
Definition load (r c : Z) : M Z := λ s,
  match grid_get (board s) r c with
  | Some v => Ok v s
  | None => Raise s
  end.

(** [board[r][c] = v] *)
Definition store (r c v : Z) : M unit := λ s,
  match grid_set (board s) r c v with
  | Some G => Ok () (State G (stdout s))
  | None => Raise s
  end.

(** [a // b] on integers: floor division, [ZeroDivisionError] when [b = 0]. *)
Definition floordiv (a b : Z) : M Z :=
  if b =? 0 then raise else mret (a `div` b).

(** [int(sqrt(n))]: for the lengths a list can have, the floating-point
    square root truncates to the integer square root. *)
Definition int_sqrt (n : Z) : Z := Z.sqrt n.

(** [print_board(board)]: each row is formatted with nine placeholders, so
    a row shorter than nine raises [IndexError]; otherwise the board is
    written out.  The output is recorded as a snapshot of the board. *)
Definition print_board : M unit := λ s,
  if forallb (λ row : list Z, bool_decide (9 ≤ length row)%nat) (board s)
  then Ok () (State (board s) (stdout s ++ [board s]))
  else Raise s.

(** ** The functions of [sudoku.py] *)

(** [make_move(board, row, col, num)] *)
Definition make_move (row col num : Z) : M unit := store row col num.

(** [input_valid(row, col, num)] *)
Definition input_valid (row col num : Z) : bool :=
  if (row <? 0) || (row >? 8) || (col <? 0) || (col >? 8) then false
  else if (num <? 1) || (num >? 9) then false
  else true.

(** [move_valid(board, row, col, num)] *)
Definition move_valid (row col num : Z) : M bool :=
  m ← len_row 0;
  c1 ← for_in (range 0 m) (λ i,
          if negb (i =? col) then
            x ← load row i;
            if x =? num then mret (Return false) else mret Continue
          else mret Continue);
  match c1 with
  | Return b => mret b
  | Continue =>
      n ← len_board;
      c2 ← for_in (range 0 n) (λ i,
              if negb (i =? row) then
                x ← load i col;
                if x =? num then mret (Return false) else mret Continue
              else mret Continue);
      match c2 with
      | Return b => mret b
      | Continue =>
          n' ← len_board;
          let box_size := int_sqrt n' in
          qy ← floordiv row box_size;
          let box_y := qy * box_size in
          qx ← floordiv col box_size;
          let box_x := qx * box_size in
          c3 ← for_in (range 0 box_size) (λ i,
                  for_in (range 0 box_size) (λ j,
                    if negb ((box_y + i =? row) && (box_x + j =? col)) then
                      x ← load (box_y + i) (box_x + j);
                      if x =? num then mret (Return false) else mret Continue
                    else mret Continue));
          match c3 with
          | Return b => mret b
          | Continue => mret true
          end
      end
  end.

(** [is_valid(board)]: the three scans are written out again inside the
    double loop over the cells, as in the source. *)
Definition is_valid : M bool :=
  n ← len_board;
  c ← for_in (range 0 n) (λ row,
        m ← len_row 0;
        for_in (range 0 m) (λ col,
          num ← load row col;
          m1 ← len_row 0;
          c1 ← for_in (range 0 m1) (λ i,
                  if negb (i =? col) then
                    x ← load row i;
                    if x =? num then mret (Return false) else mret Continue
                  else mret Continue);
          match c1 with
          | Return b => mret (Return b)
          | Continue =>
              n1 ← len_board;
              c2 ← for_in (range 0 n1) (λ i,
                      if negb (i =? row) then
                        x ← load i col;
                        if x =? num then mret (Return false) else mret Continue
                      else mret Continue);
              match c2 with
              | Return b => mret (Return b)
              | Continue =>
                  n' ← len_board;
                  let box_size := int_sqrt n' in
                  qy ← floordiv row box_size;
                  let box_y := qy * box_size in
                  qx ← floordiv col box_size;
                  let box_x := qx * box_size in
                  for_in (range 0 box_size) (λ i,
                    for_in (range 0 box_size) (λ j,
                      if negb ((box_y + i =? row) && (box_x + j =? col)) then
                        x ← load (box_y + i) (box_x + j);
                        if x =? num then mret (Return false) else mret Continue
                      else mret Continue))
              end
          end));
  match c with
  | Return b => mret b
  | Continue => mret true
  end.

(** [is_complete(board)] *)
Definition is_complete : M bool :=
  n ← len_board;
  c ← for_in (range 0 n) (λ row,
        m ← len_row 0;
        for_in (range 0 m) (λ col,
          x ← load row col;
          if x =? 0 then mret (Return false) else mret Continue));
  match c with
  | Return b => mret b
  | Continue => mret true
  end.

(** [solver(board)].  [fuel] bounds the number of nested activations: an
    activation that would exceed it is [OutOfFuel]. *)
Fixpoint solver (fuel : nat) : M unit :=
  match fuel with
  | O => λ _, OutOfFuel
  | S fuel' =>
      n ← len_board;
      c ← for_in (range 0 n) (λ row,
            m ← len_row 0;
            for_in (range 0 m) (λ col,
              x ← load row col;
              if x =? 0 then
                for_in (R := unit) (range 1 10) (λ num,
                  ok ← move_valid row col num;
                  if ok : bool then
                    store row col num;;
                    solver fuel';;
                    mret Continue
                  else mret Continue);;
                store row col 0;;
                mret (Return ())
              else mret Continue));
      match c with
      | Return _ => mret ()
      | Continue => print_board
      end
  end.

(** * Vocabulary of the statements *)

(** ** Outcomes and loops *)

(** The state an outcome leaves behind, if the run ended at all. *)
Definition final {A} (r : result A) : option state :=
  match r with
  | Ok _ s | Raise s => Some s
  | OutOfFuel => None
  end.

(** A computation that ends, by return or by exception, in the state it
    started from. *)
Definition readonly {A} (m : M A) : Prop := ∀ s, final (m s) = Some s.

(** What a loop over [l] comes to when iteration [i] comes to [f i]: the
    first [Return], if there is one. *)
Fixpoint first_ret {R} (f : Z → ctl R) (l : list Z) : ctl R :=
  match l with
  | [] => Continue
  | i :: l' => match f i with Continue => first_ret f l' | Return r => Return r end
  end.

(** ** Names for parts of the functions *)

(** Names for the loop bodies that both functions write out. *)
Definition row_scan (row col num i : Z) : M (ctl bool) :=
  if negb (i =? col) then
    x ← load row i;
    if x =? num then mret (Return false) else mret Continue
  else mret Continue.

Definition col_scan (row col num i : Z) : M (ctl bool) :=
  if negb (i =? row) then
    x ← load i col;
    if x =? num then mret (Return false) else mret Continue
  else mret Continue.

Definition box_scan (box_y box_x row col num i j : Z) : M (ctl bool) :=
  if negb ((box_y + i =? row) && (box_x + j =? col)) then
    x ← load (box_y + i) (box_x + j);
    if x =? num then mret (Return false) else mret Continue
  else mret Continue.

Definition three_scans (row col num : Z) : M (ctl bool) :=
  m1 ← len_row 0;
  c1 ← for_in (range 0 m1) (row_scan row col num);
  match c1 with
  | Return b => mret (Return b)
  | Continue =>
      n1 ← len_board;
      c2 ← for_in (range 0 n1) (col_scan row col num);
      match c2 with
      | Return b => mret (Return b)
      | Continue =>
          n' ← len_board;
          let box_size := int_sqrt n' in
          qy ← floordiv row box_size;
          let box_y := qy * box_size in
          qx ← floordiv col box_size;
          let box_x := qx * box_size in
          for_in (range 0 box_size) (λ i,
            for_in (range 0 box_size) (box_scan box_y box_x row col num i))
      end
  end.

Definition cell_pass (row col : Z) : M (ctl bool) :=
  num ← load row col; three_scans row col num.

Definition row_pass (row : Z) : M (ctl bool) :=
  m ← len_row 0; for_in (range 0 m) (cell_pass row).

(** Names for the parts of one activation of [solver]. *)
Definition try_num (fuel : nat) (row col num : Z) : M (ctl unit) :=
  ok ← move_valid row col num;
  if ok : bool then
    store row col num;;
    solver fuel;;
    mret Continue
  else mret Continue.

Definition fill_cell (fuel : nat) (row col : Z) : M (ctl unit) :=
  x ← load row col;
  if x =? 0 then
    for_in (range 1 10) (try_num fuel row col);;
    store row col 0;;
    mret (Return ())
  else mret Continue.

Definition fill_row (fuel : nat) (row : Z) : M (ctl unit) :=
  m ← len_row 0; for_in (range 0 m) (fill_cell fuel row).

(** The cells [is_valid] visits: every row index, and every column index of
    row 0. *)
Definition visited (G : grid) (r c : Z) : Prop :=
  0 ≤ r < Z.of_nat (length G) ∧
  ∃ row0, G !! 0%nat = Some row0 ∧ 0 ≤ c < Z.of_nat (length row0).

(** ** 9x9 boards *)

(** A 9x9 board: nine rows of nine cells. *)
Definition wf9 (G : grid) : Prop :=
  length G = 9%nat ∧ Forall (λ row, length row = 9%nat) G.

(** The value of cell (r, c), and the board with cell (r, c) overwritten;
    total versions of [grid_get] and [grid_set] for use in statements. *)
Definition cell (G : grid) (r c : Z) : Z := default 0 (grid_get G r c).

Definition upd (G : grid) (r c v : Z) : grid := default G (grid_set G r c v).

(** Cells that share a row, a column or a 3x3 box. *)
Definition same_unit (r c r' c' : Z) : Prop :=
  r' = r ∨ c' = c ∨ (r' `div` 3 = r `div` 3 ∧ c' `div` 3 = c `div` 3).

(** No cell other than (r, c) in the row, column or box of (r, c) holds [v]. *)
Definition legal (G : grid) (r c v : Z) : Prop :=
  ∀ r' c', 0 ≤ r' < 9 → 0 ≤ c' < 9 → (r', c') ≠ (r, c) →
           same_unit r c r' c' → cell G r' c' ≠ v.

(** Every filled cell holds a value that no other cell of its row, column
    or box holds. *)
Definition filled_cells_legal (G : grid) : Prop :=
  ∀ r c, 0 ≤ r < 9 → 0 ≤ c < 9 → cell G r c ≠ 0 → legal G r c (cell G r c).

(** No two distinct cells of one row, column or box are both empty. *)
Definition empty_cells_apart (G : grid) : Prop :=
  ∀ r c r' c', 0 ≤ r < 9 → 0 ≤ c < 9 → 0 ≤ r' < 9 → 0 ≤ c' < 9 →
    (r', c') ≠ (r, c) → same_unit r c r' c' → cell G r c = 0 → cell G r' c' ≠ 0.

(** The value [v] occurs in row [r], in column [c], in the box of (r, c). *)
Definition in_row (G : grid) (r v : Z) : Prop :=
  ∃ c', 0 ≤ c' < 9 ∧ cell G r c' = v.

Definition in_col (G : grid) (c v : Z) : Prop :=
  ∃ r', 0 ≤ r' < 9 ∧ cell G r' c = v.

Definition in_box (G : grid) (r c v : Z) : Prop :=
  ∃ r' c', 0 ≤ r' < 9 ∧ 0 ≤ c' < 9 ∧
           r' `div` 3 = r `div` 3 ∧ c' `div` 3 = c `div` 3 ∧ cell G r' c' = v.

(** The nine cells of row [r], of column [c], and of the box in box-row
    [br] and box-column [bc], each listed by position 0..8. *)
Definition row_of (G : grid) (r : Z) : list Z := (λ k, cell G r k) <$> range 0 9.

Definition col_of (G : grid) (c : Z) : list Z := (λ k, cell G k c) <$> range 0 9.

Definition box_of (G : grid) (br bc : Z) : list Z :=
  (λ k, cell G (3 * br + k `div` 3) (3 * bc + k `mod` 3)) <$> range 0 9.

(** The digits 1..9. *)
Definition digits : list Z := range 1 10.

(** ** The search space of the solver *)

(** The number of empty cells. *)
Definition empties (G : grid) : nat := length (filter (λ v, v = 0) (concat G)).

(** No cell is empty. *)
Definition complete (G : grid) : Prop :=
  ∀ r c, 0 ≤ r < 9 → 0 ≤ c < 9 → cell G r c ≠ 0.

(** [P] fills the empty cells of [G] legally: [P] keeps the filled cells of
    [G], and every cell that is empty in [G] holds in [P] a value of 1..9
    that no other cell of its row, column or box of [P] holds. *)
Definition legal_fill (G P : grid) : Prop :=
  wf9 P ∧
  (∀ r c, 0 ≤ r < 9 → 0 ≤ c < 9 → cell G r c ≠ 0 → cell P r c = cell G r c) ∧
  (∀ r c, 0 ≤ r < 9 → 0 ≤ c < 9 → cell G r c = 0 →
          1 ≤ cell P r c ≤ 9 ∧ legal P r c (cell P r c)).

(** The specification of an activation: it returns with the board restored
    and has printed exactly the legal fills of the board. *)
Definition solver_returns (fuel : nat) (G : grid) : Prop :=
  ∀ out, ∃ ps,
    solver fuel (State G out) = Ok () (State G (out ++ ps)) ∧
    ∀ P, P ∈ ps ↔ legal_fill G P.

(** A solved board: 9x9, every cell holds a value of 1..9 that no other
    cell of its row, column or box holds. *)
Definition solved (S : grid) : Prop :=
  wf9 S ∧ ∀ r c, 0 ≤ r < 9 → 0 ≤ c < 9 →
            1 ≤ cell S r c ≤ 9 ∧ legal S r c (cell S r c).

(** [S] is a solution of [G]: a solved board that keeps the givens of [G]. *)
Definition solution_of (G S : grid) : Prop :=
  solved S ∧ ∀ r c, 0 ≤ r < 9 → 0 ≤ c < 9 → cell G r c ≠ 0 → cell S r c = cell G r c.

(** ** Boards used in examples *)

(** The board literal of the program's main block. *)
Definition puzzle : grid :=
  [ [1; 0; 0; 4; 8; 9; 0; 0; 6];
    [7; 3; 0; 0; 0; 0; 0; 4; 0];
    [0; 0; 0; 0; 0; 1; 2; 9; 5];
    [0; 0; 7; 1; 2; 0; 6; 0; 0];
    [5; 0; 0; 7; 0; 3; 0; 0; 8];
    [0; 0; 6; 0; 9; 5; 7; 0; 0];
    [9; 1; 4; 6; 0; 0; 0; 0; 0];
    [0; 2; 0; 0; 0; 0; 0; 3; 7];
    [8; 0; 0; 5; 1; 2; 0; 0; 4] ].

(** The completion of [puzzle] that the program prints. *)
Definition puzzle_solution : grid :=
  [ [1; 5; 2; 4; 8; 9; 3; 7; 6];
    [7; 3; 9; 2; 5; 6; 8; 4; 1];
    [4; 6; 8; 3; 7; 1; 2; 9; 5];
    [3; 8; 7; 1; 2; 4; 6; 5; 9];
    [5; 9; 1; 7; 6; 3; 4; 2; 8];
    [2; 4; 6; 8; 9; 5; 7; 1; 3];
    [9; 1; 4; 6; 3; 7; 5; 8; 2];
    [6; 2; 5; 9; 4; 8; 1; 3; 7];
    [8; 7; 3; 5; 1; 2; 9; 6; 4] ].

(** Row [i] is 1..9 rotated left by [i]. *)
Definition shifted_rows : grid :=
  (λ i, (λ j, (i + j) `mod` 9 + 1) <$> range 0 9) <$> range 0 9.

(** A board with a single given: 5 in the top left corner. *)
Definition corner_five : grid :=
  [5; 0; 0; 0; 0; 0; 0; 0; 0] :: replicate 8 (replicate 9 0).

(** A board without solution whose givens do not clash: the top left cell
    sees 1..8 in its row and 9 in its column. *)
Definition dead_end : grid :=
  [0; 1; 2; 3; 4; 5; 6; 7; 8] :: [9; 0; 0; 0; 0; 0; 0; 0; 0]
    :: replicate 7 (replicate 9 0).


(** ** The text written by [print_board] *)

(** [t * n] on strings. *)
Fixpoint repeat_text (t : string) (n : nat) : string :=
  match n with
  | O => ""
  | S n' => t +:+ repeat_text t n'
  end.

(** The template [' c{} '], nine times, filled with 1..9. *)
Definition header_text : string :=
  foldr (λ k acc, " c" +:+ pretty k +:+ " " +:+ acc) "" (range 1 10).

(** ["-" * 37], ["|" + "---" * 11 + "--|"], ["|" + "    " * 8 + "   |"] *)
Definition edge_text : string := repeat_text "-" 37.
Definition divider_text : string := "|" +:+ repeat_text "---" 11 +:+ "--|".
Definition spacer_text : string := "|" +:+ repeat_text "    " 8 +:+ "   |".

(** [x if x != 0 else " "], as [format] shows it. *)
Definition cell_text (x : Z) : string := if x =? 0 then " " else pretty x.

(** [" {}   {}   {} |"] filled with three cells. *)
Definition segment_text (x y z : Z) : string :=
  " " +:+ cell_text x +:+ "   " +:+ cell_text y +:+ "   " +:+ cell_text z +:+ " |".

(** The template ["|" + " {}   {}   {} |" * 3]: its nine fields take the
    first nine cells of the row; a shorter row raises [IndexError]. *)
Definition row_text (row : list Z) : option string :=
  match row with
  | a :: b :: c :: d :: e :: f :: g :: h :: i :: _ =>
      Some ("|" +:+ segment_text a b c +:+ segment_text d e f +:+ segment_text g h i)
  | _ => None
  end.

(** The line printed after row [i]. *)
Definition after_row_text (i : nat) : string :=
  if (i =? 8)%nat then edge_text
  else if (i mod 3 =? 2)%nat then divider_text
  else spacer_text.

(** The lines printed for the rows from index [i] on, and whether the loop
    ran to its end ([false]: a row raised, the lines before it are out). *)
Fixpoint rows_text (i : nat) (rows : grid) : list string * bool :=
  match rows with
  | [] => ([], true)
  | row :: rest =>
      match row_text row with
      | None => ([], false)
      | Some t =>
          let '(ls, ok) := rows_text (S i) rest in
          ((t +:+ " " +:+ "r" +:+ pretty (S i)) :: after_row_text i :: ls, ok)
      end
  end.

(** All the lines [print_board] writes, and whether it returned. *)
Definition board_text (G : grid) : list string * bool :=
  let '(ls, ok) := rows_text 0 G in (header_text :: edge_text :: ls, ok).

(** ** The main block of [sudoku.py] *)

(** How a run of the program ends: with the message 'Solution Correct',
    with the message 'Solution Incorrect' followed by the solver's output,
    or with the [EOFError] that [input] raises when standard input runs
    dry.  Nothing catches that error and nothing runs after it, so it is
    reported as a verdict, apart from the exceptions of the board
    functions. *)
Inductive verdict := SolutionCorrect | SolutionIncorrect | InputExhausted.

(** [grid = [...]]: the variable is bound to a fresh board. *)
Definition set_board (G : grid) : M unit := λ s, Ok () (State G (stdout s)).

(** The code after the [while] loop. *)
Definition finish (fuel : nat) : M verdict :=
  ok ← is_valid;
  if ok : bool then mret SolutionCorrect
  else
    set_board puzzle;;
    solver fuel;;
    mret SolutionIncorrect.

(** The [while not is_complete(grid)] loop and what follows it.  The lines
    of standard input are [inp]; [int_tail l] stands for [int(l[1:])] and
    [int_all l] for [int(l)], [None] meaning [ValueError].  A turn reads the
    column, the row and the number, in this order, and gives up at the
    first line that does not parse.  The messages are not recorded, the
    boards printed are. *)
Fixpoint play {line} (int_tail int_all : line → option Z)
    (fuel : nat) (inp : list line) : M verdict :=
  full ← is_complete;
  if full : bool then finish fuel
  else
    match inp with
    | [] => mret InputExhausted
    | l1 :: inp1 =>
        match int_tail l1 with
        | None => play int_tail int_all fuel inp1
        | Some c1 =>
            let c := c1 - 1 in
            match inp1 with
            | [] => mret InputExhausted
            | l2 :: inp2 =>
                match int_tail l2 with
                | None => play int_tail int_all fuel inp2
                | Some r1 =>
                    let r := r1 - 1 in
                    match inp2 with
                    | [] => mret InputExhausted
                    | l3 :: inp3 =>
                        match int_all l3 with
                        | None => play int_tail int_all fuel inp3
                        | Some n =>
                            (if input_valid r c n then
                               make_move r c n;;
                               print_board
                             else mret ());;
                            play int_tail int_all fuel inp3
                        end
                    end
                end
            end
        end
    end.

(** The main block: the board literal, the first [print_board], the loop. *)
Definition main {line} (int_tail int_all : line → option Z)
    (fuel : nat) (inp : list line) : M verdict :=
  set_board puzzle;;
  print_board;;
  play int_tail int_all fuel inp.

(** ** More vocabulary *)

(** Every cell of the 9x9 board holds a value between [lo] and [hi]. *)
Definition cells_in (lo hi : Z) (G : grid) : Prop :=
  ∀ r c, 0 ≤ r < 9 → 0 ≤ c < 9 → lo ≤ cell G r c ≤ hi.

(** The specification of an activation, with the printed boards counted:
    it returns with the board restored and has printed every legal fill of
    the board exactly once. *)
Definition solver_lists (fuel : nat) (G : grid) : Prop :=
  ∀ out, ∃ ps,
    solver fuel (State G out) = Ok () (State G (out ++ ps)) ∧
    NoDup ps ∧
    ∀ P, P ∈ ps ↔ legal_fill G P.

(** However [m] ends when started in [s], by return or by exception, it
    ends in a state in which [I] holds. *)
Definition ends_in {A} (I : state → Prop) (m : M A) (s : state) : Prop :=
  ∀ s', final (m s) = Some s' → I s'.

(** What is true of the state in which the program ends with verdict [v]:
    after 'Solution Correct' the board is solved and is the last board
    printed; after 'Solution Incorrect' the board is the puzzle again and
    the last board printed is its solution; when the input ran dry the
    board is a 9x9 board with values in 0..9 that still has an empty cell,
    and is the last board printed. *)
Definition ends_with (v : verdict) (s' : state) : Prop :=
  match v with
  | SolutionCorrect =>
      solved (board s') ∧ last (stdout s') = Some (board s')
  | SolutionIncorrect =>
      board s' = puzzle ∧ last (stdout s') = Some puzzle_solution
  | InputExhausted =>
      wf9 (board s') ∧ cells_in 0 9 (board s') ∧ ¬ complete (board s') ∧
      last (stdout s') = Some (board s')
  end.

(** The width of line [k] of a printed 9x9 board: 36 for the header, 40
    for a line that shows a row (37 and a label of 3), 37 for the others. *)
Definition line_width (k : nat) : nat :=
  if (k =? 0)%nat then 36%nat else if Nat.even k then 40%nat else 37%nat.

(** The cell in row [i], column [j], counted from 0, if there is one. *)
Definition cell_at (G : grid) (i j : nat) : option Z :=
  row ← G !! i; row !! j.

(** [G'] has the shape of [G] and every filled cell of [G] unchanged. *)
Definition keeps_givens (G G' : grid) : Prop :=
  length G' = length G ∧
  (∀ i row, G !! i = Some row → ∃ row', G' !! i = Some row' ∧ length row' = length row) ∧
  ∀ i j v, cell_at G i j = Some v → v ≠ 0 → cell_at G' i j = Some v.

(** * Reasoning about the model *)

(** ** Running the monad *)

Lemma bind_run {A B} (m : M A) (f : A → M B) s :
  (m ≫= f) s =
  match m s with
  | Ok a s' => f a s'
  | Raise s' => Raise s'
  | OutOfFuel => OutOfFuel
  end.
Proof. reflexivity. Qed.

Lemma ret_run {A} (a : A) s : mret (M := M) a s = Ok a s.
Proof. reflexivity. Qed.

Lemma bind_Ok {A B} (m : M A) (f : A → M B) s a s' :
  m s = Ok a s' → (m ≫= f) s = f a s'.
Proof. intros E. rewrite bind_run, E. reflexivity. Qed.

Lemma readonly_Ok {A} (m : M A) s a s' : readonly m → m s = Ok a s' → s' = s.
Proof. intros H E. specialize (H s). rewrite E in H. simpl in H. congruence. Qed.

Lemma readonly_ret {A} (a : A) : readonly (mret a).
Proof. intros s. reflexivity. Qed.

Lemma readonly_raise {A} : readonly (@raise A).
Proof. intros s. reflexivity. Qed.

Lemma readonly_bind {A B} (m : M A) (f : A → M B) :
  readonly m → (∀ a, readonly (f a)) → readonly (m ≫= f).
Proof.
  intros Hm Hf s. rewrite bind_run. specialize (Hm s).
  destruct (m s) as [a s'| s' |]; simpl in Hm.
  - injection Hm as ->. apply Hf.
  - simpl. congruence.
  - discriminate.
Qed.

Lemma readonly_len_board : readonly len_board.
Proof. intros s. reflexivity. Qed.

Lemma readonly_len_row r : readonly (len_row r).
Proof. intros s. unfold len_row. destruct (py_index _ _); reflexivity. Qed.

Lemma readonly_load r c : readonly (load r c).
Proof. intros s. unfold load. destruct (grid_get _ _ _); reflexivity. Qed.

Lemma readonly_floordiv a b : readonly (floordiv a b).
Proof. unfold floordiv. destruct (b =? 0); [apply readonly_raise | apply readonly_ret]. Qed.

Lemma readonly_for_in {R} l (body : Z → M (ctl R)) :
  (∀ i, readonly (body i)) → readonly (for_in l body).
Proof.
  intros Hb. induction l as [|i l IH]; simpl.
  - apply readonly_ret.
  - apply readonly_bind; [apply Hb|].
    intros [|r]; [apply IH | apply readonly_ret].
Qed.

Lemma readonly_if {A} (b : bool) (m1 m2 : M A) :
  readonly m1 → readonly m2 → readonly (if b then m1 else m2).
Proof. destruct b; auto. Qed.

Lemma readonly_ctl {R A} (c : ctl R) (m1 : M A) (m2 : R → M A) :
  readonly m1 → (∀ r, readonly (m2 r)) →
  readonly (match c with Continue => m1 | Return r => m2 r end).
Proof. destruct c; auto. Qed.

Create HintDb ro discriminated.
#[global] Hint Resolve readonly_ret readonly_raise readonly_len_board readonly_len_row
  readonly_load readonly_floordiv : ro.

Ltac ro_step :=
  first
    [ apply readonly_bind
    | apply readonly_for_in
    | apply readonly_if
    | apply readonly_ctl
    | solve [auto with ro] ].

Ltac prove_readonly := repeat (intros; ro_step).

Lemma readonly_move_valid row col num : readonly (move_valid row col num).
Proof. unfold move_valid. prove_readonly. Qed.

Lemma readonly_is_valid : readonly is_valid.
Proof. unfold is_valid. prove_readonly. Qed.

Lemma readonly_is_complete : readonly is_complete.
Proof. unfold is_complete. prove_readonly. Qed.

(** ** Loops *)

Lemma elem_of_range a b i : i ∈ range a b ↔ a ≤ i < b.
Proof. unfold range. rewrite elem_of_seqZ. lia. Qed.

(** A loop that runs to its end has run every iteration to its end. *)
Lemma for_in_Continue_ro {R} l (body : Z → M (ctl R)) s s' :
  (∀ i, readonly (body i)) →
  for_in l body s = Ok Continue s' ↔ s' = s ∧ ∀ i, i ∈ l → body i s = Ok Continue s.
Proof.
  intros Hro. induction l as [|i l IH]; simpl.
  - rewrite ret_run. split.
    + intros [= ->]. split; [done|]. intros i Hi. by apply elem_of_nil in Hi.
    + by intros [-> _].
  - rewrite bind_run. destruct (body i s) as [[|r] s1| |] eqn:E.
    + apply (readonly_Ok _ _ _ _ (Hro i)) in E as E'. subst s1.
      rewrite IH. split.
      * intros [-> H]. split; [done|]. intros j [->|Hj]%elem_of_cons; auto.
      * intros [-> H]. split; [done|]. intros j Hj. apply H. by right.
    + rewrite ret_run. split; [done|]. intros [_ H].
      specialize (H i (list_elem_of_here _ _)). congruence.
    + split; [done|]. intros [_ H].
      specialize (H i (list_elem_of_here _ _)). congruence.
    + split; [done|]. intros [_ H].
      specialize (H i (list_elem_of_here _ _)). congruence.
Qed.

(** A loop left by [return] was left by one of its iterations. *)
Lemma for_in_Return_inv {R} l (body : Z → M (ctl R)) s r s' :
  for_in l body s = Ok (Return r) s' →
  ∃ i s1, i ∈ l ∧ body i s1 = Ok (Return r) s'.
Proof.
  revert s. induction l as [|i l IH]; intros s; simpl.
  - by rewrite ret_run.
  - rewrite bind_run. destruct (body i s) as [[|r1] s1| |] eqn:E; try done.
    + intros (j & s2 & Hj & H)%IH. exists j, s2. split; [by right | done].
    + rewrite ret_run. intros [= -> ->]. exists i, s. split; [by left | done].
Qed.

(** When every iteration, run in state [s], yields a value that depends on
    the index only and leaves [s] alone, so does the loop. *)
Lemma for_in_pure {R} l (body : Z → M (ctl R)) (f : Z → ctl R) s :
  (∀ i, i ∈ l → body i s = Ok (f i) s) → for_in l body s = Ok (first_ret f l) s.
Proof.
  induction l as [|i l IH]; intros H; simpl; [done|].
  rewrite bind_run, (H i) by left. destruct (f i); [|done].
  apply IH. intros j Hj. apply H. by right.
Qed.

Lemma first_ret_Continue {R} (f : Z → ctl R) l :
  first_ret f l = Continue ↔ ∀ i, i ∈ l → f i = Continue.
Proof.
  induction l as [|i l IH]; simpl.
  - split; [|done]. intros _ i Hi. by apply elem_of_nil in Hi.
  - destruct (f i) eqn:E.
    + rewrite IH. split.
      * intros H j [->|Hj]%elem_of_cons; auto.
      * intros H j Hj. apply H. by right.
    + split; [done|]. intros H. specialize (H i (list_elem_of_here _ _)). congruence.
Qed.

Lemma first_ret_Return {R} (f : Z → ctl R) l r :
  first_ret f l = Return r → ∃ i, i ∈ l ∧ f i = Return r.
Proof.
  induction l as [|i l IH]; simpl; [done|].
  destruct (f i) eqn:E.
  - intros (j & Hj & H)%IH. exists j. split; [by right | done].
  - intros [= ->]. exists i. split; [by left | done].
Qed.

(** ** The three scans shared by [move_valid] and [is_valid] *)

Lemma is_valid_unfold :
  is_valid =
  (n ← len_board;
   c ← for_in (range 0 n) row_pass;
   match c with
   | Return b => mret b
   | Continue => mret true
   end).
Proof. reflexivity. Qed.

Lemma move_valid_unfold row col num s :
  move_valid row col num s =
  (c ← three_scans row col num;
   match c with
   | Return b => mret b
   | Continue => mret true
   end) s.
Proof.
  unfold move_valid, three_scans. fold (row_scan row col num) (col_scan row col num).
  rewrite !bind_run.
  destruct (len_row 0 s) as [m s0| |]; [|done..].
  rewrite !bind_run.
  destruct (for_in (range 0 m) (row_scan row col num) s0) as [[|b] s1| |]; [|done..].
  rewrite !bind_run.
  destruct (len_board s1) as [n s2| |]; [|done..].
  rewrite !bind_run.
  destruct (for_in (range 0 n) (col_scan row col num) s2) as [[|b] s3| |]; [|done..].
  rewrite !bind_run.
  destruct (len_board s3) as [n' s4| |]; [|done..].
  cbv zeta. rewrite !bind_run.
  destruct (floordiv row (int_sqrt n') s4) as [qy s5| |]; [|done..].
  rewrite !bind_run.
  destruct (floordiv col (int_sqrt n') s5) as [qx s6| |]; [|done..].
  reflexivity.
Qed.

Lemma readonly_three_scans row col num : readonly (three_scans row col num).
Proof. unfold three_scans, row_scan, col_scan, box_scan. prove_readonly. Qed.

Lemma scan_step_false (x num : Z) s s' b :
  (if x =? num then mret (Return false) else mret Continue : M (ctl bool)) s
    = Ok (Return b) s' →
  b = false.
Proof. destruct (x =? num); rewrite ret_run; congruence. Qed.

Lemma row_scan_false row col num i s s' b :
  row_scan row col num i s = Ok (Return b) s' → b = false.
Proof.
  unfold row_scan. destruct (negb _); [|by rewrite ret_run].
  rewrite bind_run. destruct (load row i s); [|done..].
  by apply scan_step_false.
Qed.

Lemma col_scan_false row col num i s s' b :
  col_scan row col num i s = Ok (Return b) s' → b = false.
Proof.
  unfold col_scan. destruct (negb _); [|by rewrite ret_run].
  rewrite bind_run. destruct (load i col s); [|done..].
  by apply scan_step_false.
Qed.

Lemma box_scan_false by' bx row col num i j s s' b :
  box_scan by' bx row col num i j s = Ok (Return b) s' → b = false.
Proof.
  unfold box_scan. destruct (negb _); [|by rewrite ret_run].
  rewrite bind_run. destruct (load _ _ s); [|done..].
  by apply scan_step_false.
Qed.

(** The scans only ever leave with [False]. *)
Lemma three_scans_false row col num s s' b :
  three_scans row col num s = Ok (Return b) s' → b = false.
Proof.
  unfold three_scans. rewrite !bind_run.
  destruct (len_row 0 s) as [m s0| |]; [|done..].
  rewrite !bind_run.
  destruct (for_in _ (row_scan _ _ _) s0) as [[|b1] s1| |] eqn:E1; [| |done..].
  2:{ rewrite ret_run. intros [= -> ->].
      apply for_in_Return_inv in E1 as (i & s2 & _ & H). by eapply row_scan_false. }
  rewrite !bind_run.
  destruct (len_board s1) as [n s2| |]; [|done..].
  rewrite !bind_run.
  destruct (for_in _ (col_scan _ _ _) s2) as [[|b2] s3| |] eqn:E2; [| |done..].
  2:{ rewrite ret_run. intros [= -> ->].
      apply for_in_Return_inv in E2 as (i & s4 & _ & H). by eapply col_scan_false. }
  rewrite !bind_run.
  destruct (len_board s3) as [n' s4| |]; [|done..].
  cbv zeta. rewrite !bind_run.
  destruct (floordiv row _ s4) as [qy s5| |]; [|done..].
  rewrite !bind_run.
  destruct (floordiv col _ s5) as [qx s6| |]; [|done..].
  intros (i & s7 & _ & H)%for_in_Return_inv.
  apply for_in_Return_inv in H as (j & s8 & _ & H).
  by eapply box_scan_false.
Qed.

(** [move_valid] answers [True] exactly when the scans run to their end. *)
Lemma move_valid_true row col num s :
  move_valid row col num s = Ok true s ↔ three_scans row col num s = Ok Continue s.
Proof.
  rewrite move_valid_unfold, bind_run.
  destruct (three_scans row col num s) as [[|b] s1| |] eqn:E; rewrite ?ret_run.
  - split; congruence.
  - apply three_scans_false in E as ->. split; congruence.
  - split; congruence.
  - split; congruence.
Qed.

Lemma py_index_0 {A} (l : list A) : py_index l 0 = l !! 0%nat.
Proof.
  unfold py_index, norm_index. destruct l as [|x l]; simpl; [|done].
  repeat case_bool_decide; try lia. done.
Qed.

Lemma len_row_0 s m :
  len_row 0 s = Ok m s ↔ ∃ row0, board s !! 0%nat = Some row0 ∧ m = Z.of_nat (length row0).
Proof.
  unfold len_row. rewrite py_index_0. destruct (board s !! 0%nat) as [row0|].
  - split; [intros [= <-]; eauto | intros (? & [= <-] & ->); done].
  - split; [done | intros (? & [=] & _)].
Qed.

Lemma is_valid_true s s' :
  is_valid s = Ok true s' ↔
  s' = s ∧ ∀ r c, visited (board s) r c →
             ∃ v, load r c s = Ok v s ∧ move_valid r c v s = Ok true s.
Proof.
  rewrite is_valid_unfold, bind_run. unfold len_board at 1.
  rewrite bind_run.
  set (inner := cell_pass). set (outer := row_pass).
  assert (Hinner : ∀ row col, readonly (inner row col)).
  { intros. unfold inner, cell_pass. apply readonly_bind; [auto with ro|].
    intros. apply readonly_three_scans. }
  assert (Houter : ∀ row, readonly (outer row)).
  { intros. unfold outer, row_pass. apply readonly_bind; [auto with ro|].
    intros. by apply readonly_for_in. }
  assert (Hcell : ∀ r c, inner r c s = Ok Continue s ↔
            ∃ v, load r c s = Ok v s ∧ move_valid r c v s = Ok true s).
  { intros r c. unfold inner, cell_pass. rewrite bind_run.
    destruct (load r c s) as [v s1| |] eqn:E.
    - apply (readonly_Ok _ _ _ _ (readonly_load r c)) in E as ->.
      rewrite <- move_valid_true. split; [eauto|]. by intros (? & [= <-] & ?).
    - split; [done | by intros (? & [=] & _)].
    - split; [done | by intros (? & [=] & _)]. }
  assert (Hrow : ∀ r, outer r s = Ok Continue s ↔
            ∃ row0, board s !! 0%nat = Some row0 ∧
              ∀ c, 0 ≤ c < Z.of_nat (length row0) → inner r c s = Ok Continue s).
  { intros r. unfold outer, row_pass. fold inner. rewrite bind_run.
    destruct (len_row 0 s) as [m s1| |] eqn:E.
    - apply (readonly_Ok _ _ _ _ (readonly_len_row 0)) in E as E'. subst s1.
      apply len_row_0 in E as (row0 & E0 & ->).
      rewrite for_in_Continue_ro by done. split.
      + intros [_ H]. exists row0. split; [done|]. intros c Hc. apply H, elem_of_range. lia.
      + intros (row0' & E0' & H). split; [done|]. intros c Hc%elem_of_range.
        apply H. rewrite E0 in E0'. injection E0' as <-. lia.
    - split; [done|]. intros (row0 & E0 & _).
      assert (len_row 0 s = Ok (Z.of_nat (length row0)) s) by (apply len_row_0; eauto).
      congruence.
    - split; [done|]. intros (row0 & E0 & _).
      assert (len_row 0 s = Ok (Z.of_nat (length row0)) s) by (apply len_row_0; eauto).
      congruence. }
  assert (Hall : (∀ r c, visited (board s) r c →
                    ∃ v, load r c s = Ok v s ∧ move_valid r c v s = Ok true s) →
                 for_in (range 0 (Z.of_nat (length (board s)))) outer s = Ok Continue s).
  { intros H. apply for_in_Continue_ro; [done|]. split; [done|].
    intros r Hr%elem_of_range. apply Hrow.
    destruct (board s) as [|row0 G] eqn:EG; [simpl in Hr; lia|].
    exists row0. split; [done|]. intros c Hc. apply Hcell, H.
    split; [done|]. exists row0. done. }
  destruct (for_in _ outer s) as [[|b] s1| |] eqn:E; rewrite ?ret_run.
  - apply for_in_Continue_ro in E as [-> E]; [|done]. split.
    + intros [= <-]. split; [done|]. intros r c [Hr (row0 & E0 & Hc)].
      apply Hcell. specialize (E r). rewrite elem_of_range in E.
      apply Hrow in E as (row0' & E0' & E); [|lia].
      apply E. rewrite E0 in E0'. injection E0' as <-. done.
    + by intros [-> _].
  - apply for_in_Return_inv in E as E'. destruct E' as (i & s2 & _ & E').
    unfold outer, row_pass in E'. rewrite bind_run in E'.
    destruct (len_row 0 s2) as [m s3| |]; [|done..].
    apply for_in_Return_inv in E' as (j & s4 & _ & E').
    unfold cell_pass in E'. rewrite bind_run in E'.
    destruct (load i j s4) as [v s5| |]; [|done..].
    apply three_scans_false in E' as ->.
    split; [done|]. intros [-> H].
    apply Hall in H. congruence.
  - split; [done|]. intros [-> H].
    apply Hall in H. congruence.
  - split; [done|]. intros [-> H].
    apply Hall in H. congruence.
Qed.

(** ** Cells of a 9x9 board *)

Lemma norm_index_nonneg len i :
  0 ≤ i < Z.of_nat len → norm_index len i = Some (Z.to_nat i).
Proof. intros H. unfold norm_index. by rewrite bool_decide_eq_true_2. Qed.

Lemma wf9_row G r :
  wf9 G → 0 ≤ r < 9 → ∃ row, G !! Z.to_nat r = Some row ∧ length row = 9%nat.
Proof.
  intros [HL HF] Hr.
  destruct (lookup_lt_is_Some_2 G (Z.to_nat r)) as [row E]; [lia|].
  exists row. split; [done|]. by eapply Forall_lookup_1 in HF.
Qed.

Lemma grid_get_wf9 G r c :
  wf9 G → 0 ≤ r < 9 → 0 ≤ c < 9 → grid_get G r c = Some (cell G r c).
Proof.
  intros HG Hr Hc. destruct (wf9_row G r HG Hr) as (row & E & HL).
  unfold cell, grid_get, py_index.
  rewrite norm_index_nonneg by (destruct HG; lia). simpl. rewrite E. simpl.
  rewrite norm_index_nonneg by lia. simpl.
  destruct (lookup_lt_is_Some_2 row (Z.to_nat c)) as [x ->]; [lia|]. done.
Qed.

Lemma grid_set_wf9 G r c v :
  wf9 G → 0 ≤ r < 9 → 0 ≤ c < 9 → grid_set G r c v = Some (upd G r c v).
Proof.
  intros HG Hr Hc. destruct (wf9_row G r HG Hr) as (row & E & HL).
  unfold upd, grid_set.
  rewrite norm_index_nonneg by (destruct HG; lia). simpl. rewrite E. simpl.
  rewrite norm_index_nonneg by lia. done.
Qed.

Lemma upd_eq G r c v :
  wf9 G → 0 ≤ r < 9 → 0 ≤ c < 9 →
  ∃ row, G !! Z.to_nat r = Some row ∧ length row = 9%nat ∧
         upd G r c v = <[Z.to_nat r := <[Z.to_nat c := v]> row]> G.
Proof.
  intros HG Hr Hc. destruct (wf9_row G r HG Hr) as (row & E & HL).
  exists row. split; [done|]. split; [done|].
  unfold upd, grid_set.
  rewrite norm_index_nonneg by (destruct HG; lia). simpl. rewrite E. simpl.
  rewrite norm_index_nonneg by lia. done.
Qed.

Lemma wf9_upd G r c v : wf9 G → 0 ≤ r < 9 → 0 ≤ c < 9 → wf9 (upd G r c v).
Proof.
  intros HG Hr Hc. destruct (upd_eq G r c v HG Hr Hc) as (row & E & HL & ->).
  destruct HG as [HL9 HF]. split.
  - by rewrite length_insert.
  - apply Forall_insert; [done|]. by rewrite length_insert.
Qed.

Lemma cell_lookup G r c row x :
  wf9 G → 0 ≤ r < 9 → 0 ≤ c < 9 →
  G !! Z.to_nat r = Some row → row !! Z.to_nat c = Some x → cell G r c = x.
Proof.
  intros HG Hr Hc E Ex. pose proof (lookup_lt_Some _ _ _ Ex).
  unfold cell, grid_get, py_index.
  rewrite norm_index_nonneg by (destruct HG; lia). simpl. rewrite E. simpl.
  rewrite norm_index_nonneg by lia. simpl. by rewrite Ex.
Qed.

Lemma cell_upd_same G r c v :
  wf9 G → 0 ≤ r < 9 → 0 ≤ c < 9 → cell (upd G r c v) r c = v.
Proof.
  intros HG Hr Hc. pose proof (wf9_upd G r c v HG Hr Hc) as HG'.
  destruct (upd_eq G r c v HG Hr Hc) as (row & E & HL & EU).
  apply (cell_lookup _ _ _ (<[Z.to_nat c := v]> row)); try done.
  - rewrite EU. apply list_lookup_insert_eq. destruct HG. lia.
  - apply list_lookup_insert_eq. lia.
Qed.

Lemma cell_upd_other G r c v r' c' :
  wf9 G → 0 ≤ r < 9 → 0 ≤ c < 9 → 0 ≤ r' < 9 → 0 ≤ c' < 9 →
  (r', c') ≠ (r, c) → cell (upd G r c v) r' c' = cell G r' c'.
Proof.
  intros HG Hr Hc Hr' Hc' Hne. pose proof (wf9_upd G r c v HG Hr Hc) as HG'.
  destruct (upd_eq G r c v HG Hr Hc) as (row & E & HL & EU).
  destruct (wf9_row G r' HG Hr') as (row' & E' & HL').
  destruct (lookup_lt_is_Some_2 row' (Z.to_nat c')) as [x Ex]; [lia|].
  rewrite (cell_lookup G r' c' row' x) by done.
  destruct (decide (r' = r)) as [->|Hrr].
  - assert (row' = row) as -> by congruence.
    apply (cell_lookup _ _ _ (<[Z.to_nat c := v]> row)); try done.
    + rewrite EU. apply list_lookup_insert_eq. destruct HG. lia.
    + rewrite list_lookup_insert_ne; [done|]. intros ?. apply Hne. f_equal. lia.
  - apply (cell_lookup _ _ _ row'); try done.
    rewrite EU, list_lookup_insert_ne; [done|]. lia.
Qed.

(** Two 9x9 boards with the same cells are the same board. *)
Lemma grid_ext G G' :
  wf9 G → wf9 G' →
  (∀ r c, 0 ≤ r < 9 → 0 ≤ c < 9 → cell G r c = cell G' r c) → G = G'.
Proof.
  intros HG HG' H. pose proof HG as [HL HF]. pose proof HG' as [HL' HF'].
  apply list_eq_same_length with 9%nat; [done..|].
  intros i row row' Hi E E'.
  assert (length row = 9%nat) by (by eapply Forall_lookup_1 in HF).
  assert (length row' = 9%nat) by (by eapply Forall_lookup_1 in HF').
  apply list_eq_same_length with 9%nat; try done.
  intros j x x' Hj Ex Ex'.
  specialize (H (Z.of_nat i) (Z.of_nat j) ltac:(lia) ltac:(lia)).
  rewrite (cell_lookup G _ _ row x) in H; try done; try lia; rewrite ?Nat2Z.id; try done.
  rewrite (cell_lookup G' _ _ row' x') in H; try done; try lia; rewrite ?Nat2Z.id; done.
Qed.

(** *** The primitive operations on a 9x9 board *)

Section wf9_state.
Context (s : state) (Hwf : wf9 (board s)).

Lemma len_board_wf9 : len_board s = Ok 9 s.
Proof. unfold len_board. destruct Hwf as [-> _]. done. Qed.

Lemma len_row_wf9 : len_row 0 s = Ok 9 s.
Proof.
  destruct (wf9_row _ 0 Hwf ltac:(lia)) as (row & E & HL).
  apply len_row_0. exists row. split; [done | lia].
Qed.

Lemma load_wf9 r c :
  0 ≤ r < 9 → 0 ≤ c < 9 → load r c s = Ok (cell (board s) r c) s.
Proof. intros. unfold load. by rewrite grid_get_wf9. Qed.

Lemma store_wf9 r c v :
  0 ≤ r < 9 → 0 ≤ c < 9 →
  store r c v s = Ok () (State (upd (board s) r c v) (stdout s)).
Proof. intros. unfold store. by rewrite grid_set_wf9. Qed.

Lemma print_board_wf9 :
  print_board s = Ok () (State (board s) (stdout s ++ [board s])).
Proof.
  unfold print_board.
  replace (forallb _ _) with true; [done|].
  symmetry. apply forallb_forall. intros row Hrow%list_elem_of_In.
  destruct Hwf as [_ HF]. rewrite Forall_forall in HF.
  apply bool_decide_eq_true_2. rewrite (HF row Hrow). done.
Qed.
End wf9_state.

(** *** What the scans decide on a 9x9 board *)

Lemma box_bounds r :
  0 ≤ r < 9 → r `div` 3 * 3 ≤ r < r `div` 3 * 3 + 3 ∧ 0 ≤ r `div` 3 < 3.
Proof.
  intros. pose proof (Z.div_mod r 3 ltac:(lia)).
  pose proof (Z.mod_pos_bound r 3 ltac:(lia)). lia.
Qed.

Lemma same_box r r' :
  0 ≤ r < 9 → 0 ≤ r' < 9 →
  r' `div` 3 = r `div` 3 ↔ r `div` 3 * 3 ≤ r' < r `div` 3 * 3 + 3.
Proof.
  intros Hr Hr'. pose proof (box_bounds r Hr). pose proof (box_bounds r' Hr'). lia.
Qed.

Lemma for_in_Ok_ro {R} l (body : Z → M (ctl R)) s :
  (∀ i, i ∈ l → ∃ k, body i s = Ok k s) → ∃ k, for_in l body s = Ok k s.
Proof.
  induction l as [|i l IH]; intros H; simpl.
  - by exists Continue.
  - rewrite bind_run. destruct (H i) as [[|r] ->]; [by left| |].
    + apply IH. intros j Hj. apply H. by right.
    + by exists (Return r).
Qed.

Section scans_wf9.
Context (s : state) (Hwf : wf9 (board s)).
Context (r c : Z) (Hr : 0 ≤ r < 9) (Hc : 0 ≤ c < 9).
Context (v : Z).

Lemma row_scan_wf9 i :
  0 ≤ i < 9 →
  row_scan r c v i s =
  Ok (if bool_decide (i ≠ c ∧ cell (board s) r i = v) then Return false else Continue) s.
Proof.
  intros Hi. unfold row_scan. destruct (Z.eqb_spec i c) as [->|Hne]; simpl.
  - rewrite bool_decide_eq_false_2 by tauto. done.
  - rewrite bind_run, load_wf9 by done.
    destruct (Z.eqb_spec (cell (board s) r i) v) as [E|E].
    + by rewrite bool_decide_eq_true_2.
    + rewrite bool_decide_eq_false_2 by tauto. done.
Qed.

Lemma col_scan_wf9 i :
  0 ≤ i < 9 →
  col_scan r c v i s =
  Ok (if bool_decide (i ≠ r ∧ cell (board s) i c = v) then Return false else Continue) s.
Proof.
  intros Hi. unfold col_scan. destruct (Z.eqb_spec i r) as [->|Hne]; simpl.
  - rewrite bool_decide_eq_false_2 by tauto. done.
  - rewrite bind_run, load_wf9 by done.
    destruct (Z.eqb_spec (cell (board s) i c) v) as [E|E].
    + by rewrite bool_decide_eq_true_2.
    + rewrite bool_decide_eq_false_2 by tauto. done.
Qed.

Lemma box_scan_wf9 y x i j :
  0 ≤ y + i < 9 → 0 ≤ x + j < 9 →
  box_scan y x r c v i j s =
  Ok (if bool_decide ((y + i, x + j) ≠ (r, c) ∧ cell (board s) (y + i) (x + j) = v)
      then Return false else Continue) s.
Proof.
  intros Hi Hj. unfold box_scan.
  destruct (Z.eqb_spec (y + i) r) as [Ei|Ei], (Z.eqb_spec (x + j) c) as [Ej|Ej]; simpl.
  - rewrite bool_decide_eq_false_2; [done|]. intros [H _]. apply H. congruence.
  - rewrite bind_run, load_wf9 by done.
    destruct (Z.eqb_spec (cell (board s) (y + i) (x + j)) v) as [E|E].
    + rewrite bool_decide_eq_true_2; [done|]. split; [congruence | done].
    + rewrite bool_decide_eq_false_2 by tauto. done.
  - rewrite bind_run, load_wf9 by done.
    destruct (Z.eqb_spec (cell (board s) (y + i) (x + j)) v) as [E|E].
    + rewrite bool_decide_eq_true_2; [done|]. split; [congruence | done].
    + rewrite bool_decide_eq_false_2 by tauto. done.
  - rewrite bind_run, load_wf9 by done.
    destruct (Z.eqb_spec (cell (board s) (y + i) (x + j)) v) as [E|E].
    + rewrite bool_decide_eq_true_2; [done|]. split; [congruence | done].
    + rewrite bool_decide_eq_false_2 by tauto. done.
Qed.

(** On a 9x9 board the scans raise nothing, and run to their end exactly
    when the placement is legal. *)
Lemma three_scans_wf9 :
  ∃ k, three_scans r c v s = Ok k s ∧ (k = Continue ↔ legal (board s) r c v).
Proof.
  unfold three_scans.
  rewrite (bind_Ok _ _ _ _ _ (len_row_wf9 s Hwf)).
  rewrite bind_run, (for_in_pure _ _
    (λ i, if bool_decide (i ≠ c ∧ cell (board s) r i = v)
          then Return false else Continue)).
  2:{ intros i Hi%elem_of_range. by apply row_scan_wf9. }
  match goal with |- context [first_ret ?f ?l] =>
    destruct (first_ret f l) as [|b] eqn:E1 end.
  2:{ eexists. split; [reflexivity|]. split; [done|]. intros HL.
      apply first_ret_Return in E1 as (i & Hi%elem_of_range & E1).
      case_bool_decide as Hd; [|done]. destruct Hd as [Hne Hv].
      exfalso. apply (HL r i); [lia..| congruence | by left | done]. }
  rewrite first_ret_Continue in E1.
  rewrite (bind_Ok _ _ _ _ _ (len_board_wf9 s Hwf)).
  rewrite bind_run, (for_in_pure _ _
    (λ i, if bool_decide (i ≠ r ∧ cell (board s) i c = v)
          then Return false else Continue)).
  2:{ intros i Hi%elem_of_range. by apply col_scan_wf9. }
  match goal with |- context [first_ret ?f ?l] =>
    destruct (first_ret f l) as [|b] eqn:E2 end.
  2:{ eexists. split; [reflexivity|]. split; [done|]. intros HL.
      apply first_ret_Return in E2 as (i & Hi%elem_of_range & E2).
      case_bool_decide as Hd; [|done]. destruct Hd as [Hne Hv].
      exfalso. apply (HL i c); [lia..| congruence | right; by left | done]. }
  rewrite first_ret_Continue in E2.
  rewrite (bind_Ok _ _ _ _ _ (len_board_wf9 s Hwf)).
  change (int_sqrt 9) with 3. cbv zeta.
  unfold floordiv. change (3 =? 0) with false. cbv iota.
  do 2 (rewrite bind_run, ret_run; cbv iota).
  set (y := r `div` 3 * 3). set (x := c `div` 3 * 3).
  pose proof (box_bounds r Hr) as Hby. pose proof (box_bounds c Hc) as Hbx.
  fold y in Hby. fold x in Hbx.
  assert (Hy : ∀ i, 0 ≤ i < 3 → 0 ≤ y + i < 9) by lia.
  assert (Hx : ∀ j, 0 ≤ j < 3 → 0 ≤ x + j < 9) by lia.
  rewrite (for_in_pure _ _
    (λ i, first_ret (λ j,
       if bool_decide ((y + i, x + j) ≠ (r, c) ∧ cell (board s) (y + i) (x + j) = v)
       then Return false else Continue) (range 0 3))).
  2:{ intros i Hi%elem_of_range. apply for_in_pure.
      intros j Hj%elem_of_range. apply box_scan_wf9; auto. }
  eexists. split; [reflexivity|].
  rewrite first_ret_Continue. setoid_rewrite first_ret_Continue.
  setoid_rewrite elem_of_range. split.
  - intros E3 r' c' Hr' Hc' Hne [->|[->|[Hbr Hbc]]].
    + specialize (E1 c' ltac:(by apply elem_of_range)).
      case_bool_decide as Hd; [done|]. intros Hv. apply Hd. split; [congruence | done].
    + specialize (E2 r' ltac:(by apply elem_of_range)).
      case_bool_decide as Hd; [done|]. intros Hv. apply Hd. split; [congruence | done].
    + apply same_box in Hbr, Hbc; [|done..]. fold y in Hbr. fold x in Hbc.
      specialize (E3 (r' - y) ltac:(lia) (c' - x) ltac:(lia)).
      replace (y + (r' - y)) with r' in E3 by lia.
      replace (x + (c' - x)) with c' in E3 by lia.
      case_bool_decide as Hd; [done|]. intros Hv. apply Hd. split; done.
  - intros HL i Hi j Hj. case_bool_decide as Hd; [|done]. destruct Hd as [Hne Hv].
    exfalso. apply (HL (y + i) (x + j)); auto.
    right; right. rewrite !same_box by auto. fold y x. lia.
Qed.

Lemma move_valid_wf9 :
  ∃ b, move_valid r c v s = Ok b s ∧ (b = true ↔ legal (board s) r c v).
Proof.
  destruct three_scans_wf9 as (k & E & Hk).
  rewrite move_valid_unfold, bind_run, E. destruct k as [|b].
  - exists true. split; [done|]. split; [intros _; by apply Hk | done].
  - apply three_scans_false in E as ->. exists false. split; [done|].
    split; [done|]. intros HL. by apply Hk in HL.
Qed.
End scans_wf9.

Lemma visited_wf9 G r c : wf9 G → visited G r c ↔ 0 ≤ r < 9 ∧ 0 ≤ c < 9.
Proof.
  intros HG. destruct (wf9_row G 0 HG ltac:(lia)) as (row0 & E & HL).
  change (Z.to_nat 0) with 0%nat in E. destruct HG as [HL9 _].
  unfold visited. rewrite HL9. split.
  - intros [Hr (row0' & E' & Hc)]. assert (row0' = row0) as -> by congruence. lia.
  - intros [Hr Hc]. split; [lia|]. exists row0. split; [done | lia].
Qed.

(** On a 9x9 board [is_valid] raises nothing, and answers [True] exactly
    when every cell's own value is a legal placement at that cell. *)
Lemma is_valid_wf9 s :
  wf9 (board s) →
  ∃ b, is_valid s = Ok b s ∧
       (b = true ↔ ∀ r c, 0 ≤ r < 9 → 0 ≤ c < 9 →
                          legal (board s) r c (cell (board s) r c)).
Proof.
  intros Hwf.
  assert (∃ b, is_valid s = Ok b s) as [b Eb].
  { rewrite is_valid_unfold. rewrite (bind_Ok _ _ _ _ _ (len_board_wf9 s Hwf)).
    rewrite bind_run.
    destruct (for_in_Ok_ro (range 0 9) row_pass s) as [k ->].
    - intros r Hr%elem_of_range. unfold row_pass.
      rewrite (bind_Ok _ _ _ _ _ (len_row_wf9 s Hwf)).
      apply for_in_Ok_ro. intros c Hc%elem_of_range. unfold cell_pass.
      rewrite (bind_Ok _ _ _ _ _ (load_wf9 s Hwf r c Hr Hc)).
      destruct (three_scans_wf9 s Hwf r c Hr Hc (cell (board s) r c)) as (k & E & _).
      eauto.
    - destruct k; eauto. }
  exists b. split; [done|].
  assert (is_valid s = Ok true s ↔ b = true) as <- by (rewrite Eb; split; congruence).
  rewrite is_valid_true. split.
  - intros [_ H] r c Hr Hc.
    destruct (H r c) as (v & Ev & Em); [by apply visited_wf9|].
    rewrite load_wf9 in Ev by done. injection Ev as <-.
    destruct (move_valid_wf9 s Hwf r c Hr Hc (cell (board s) r c)) as (b' & E' & Hb').
    apply Hb'. congruence.
  - intros H. split; [done|]. intros r c [Hr Hc]%visited_wf9; [|done].
    exists (cell (board s) r c). split; [by apply load_wf9|].
    destruct (move_valid_wf9 s Hwf r c Hr Hc (cell (board s) r c)) as (b' & E' & Hb').
    rewrite E'. f_equal. apply Hb'. auto.
Qed.

(** On a 9x9 board [is_complete] raises nothing, and answers [True] exactly
    when no cell holds 0. *)
Lemma is_complete_wf9 s :
  wf9 (board s) →
  ∃ b, is_complete s = Ok b s ∧
       (b = true ↔ ∀ r c, 0 ≤ r < 9 → 0 ≤ c < 9 → cell (board s) r c ≠ 0).
Proof.
  intros Hwf. unfold is_complete.
  rewrite (bind_Ok _ _ _ _ _ (len_board_wf9 s Hwf)).
  rewrite bind_run.
  rewrite (for_in_pure _ _
    (λ r, first_ret (λ c, if bool_decide (cell (board s) r c = 0)
                          then Return false else Continue) (range 0 9))).
  2:{ intros r Hr%elem_of_range.
      rewrite (bind_Ok _ _ _ _ _ (len_row_wf9 s Hwf)).
      apply for_in_pure. intros c Hc%elem_of_range.
      rewrite (bind_Ok _ _ _ _ _ (load_wf9 s Hwf r c Hr Hc)).
      destruct (Z.eqb_spec (cell (board s) r c) 0) as [E|E].
      - by rewrite bool_decide_eq_true_2.
      - by rewrite bool_decide_eq_false_2. }
  match goal with |- context [first_ret ?f ?l] =>
    destruct (first_ret f l) as [|b] eqn:E end.
  - exists true. split; [done|]. split; [|done]. intros _ r c Hr Hc.
    rewrite first_ret_Continue in E. specialize (E r ltac:(by apply elem_of_range)).
    rewrite first_ret_Continue in E. specialize (E c ltac:(by apply elem_of_range)).
    by case_bool_decide.
  - apply first_ret_Return in E as (r & Hr%elem_of_range & E).
    apply first_ret_Return in E as (c & Hc%elem_of_range & E).
    case_bool_decide as Hd; [|done]. injection E as <-.
    exists false. split; [done|]. split; [done|]. intros H. by apply H in Hd.
Qed.

(** ** The solver leaves the board as it found it *)

Lemma bind_Ok_inv {A B} (m : M A) (f : A → M B) s b s' :
  (m ≫= f) s = Ok b s' → ∃ a s1, m s = Ok a s1 ∧ f a s1 = Ok b s'.
Proof. rewrite bind_run. destruct (m s) as [a s1| |]; [eauto | done..]. Qed.

Lemma for_in_inv {R} (I : state → Prop) l (body : Z → M (ctl R)) s k s' :
  (∀ i s1 k1 s2, i ∈ l → I s1 → body i s1 = Ok k1 s2 → I s2) →
  I s → for_in l body s = Ok k s' → I s'.
Proof.
  revert s. induction l as [|i l IH]; intros s Hb Hs; simpl.
  - rewrite ret_run. by intros [= _ <-].
  - intros (k1 & s1 & E1 & E2)%bind_Ok_inv.
    assert (I s1) by (eapply Hb; [by left | done..]).
    destruct k1.
    + eapply IH; [|done..]. intros j ?????. eapply Hb; [by right | done..].
    + rewrite ret_run in E2. by injection E2 as _ <-.
Qed.

Lemma norm_index_lt len i n : norm_index len i = Some n → (n < len)%nat.
Proof. unfold norm_index. repeat case_bool_decide; intros [= <-]; lia. Qed.

(** Writing back the value a cell already holds changes nothing. *)
Lemma grid_set_get_id G r c x : grid_get G r c = Some x → grid_set G r c x = Some G.
Proof.
  unfold grid_get, grid_set, py_index.
  destruct (norm_index (length G) r) as [i|]; [simpl|done].
  destruct (G !! i) as [row|] eqn:E; [simpl|done].
  destruct (norm_index (length row) c) as [j|]; [simpl|done].
  intros Ex. by rewrite (list_insert_id row j x), (list_insert_id G i row).
Qed.

(** A second assignment to a cell overrides the first. *)
Lemma grid_set_set G r c x y G1 :
  grid_set G r c x = Some G1 → grid_set G1 r c y = grid_set G r c y.
Proof.
  unfold grid_set.
  destruct (norm_index (length G) r) as [i|] eqn:Ei; [simpl|done].
  destruct (G !! i) as [row|] eqn:E; [simpl|done].
  destruct (norm_index (length row) c) as [j|] eqn:Ej; [simpl|done].
  intros [= <-]. rewrite length_insert, Ei. simpl.
  rewrite list_lookup_insert_eq by (by eapply norm_index_lt). simpl.
  rewrite length_insert, Ej. simpl.
  by rewrite !list_insert_insert_eq.
Qed.

Lemma load_inv r c s x s' : load r c s = Ok x s' → s' = s ∧ grid_get (board s) r c = Some x.
Proof. unfold load. destruct (grid_get _ _ _); [|done]. by intros [= -> ->]. Qed.

Lemma store_inv r c v s s' :
  store r c v s = Ok () s' →
  grid_set (board s) r c v = Some (board s') ∧ stdout s' = stdout s.
Proof. unfold store. destruct (grid_set _ _ _ _); [|done]. by intros [= <-]. Qed.

Lemma print_board_inv s s' :
  print_board s = Ok () s' → board s' = board s ∧ stdout s' = stdout s ++ [board s].
Proof. unfold print_board. destruct (forallb _ _); [|done]. by intros [= <-]. Qed.

Lemma solver_S fuel :
  solver (S fuel) =
  (n ← len_board;
   c ← for_in (range 0 n) (fill_row fuel);
   match c with
   | Return _ => mret ()
   | Continue => print_board
   end).
Proof. reflexivity. Qed.

(** Whenever an activation of [solver] returns, the board is what it was
    when the activation started. *)
Lemma solver_board fuel : ∀ s s', solver fuel s = Ok () s' → board s' = board s.
Proof.
  induction fuel as [|fuel IH]; intros s s'; [done|]. rewrite solver_S.
  intros (n & s0 & [= <- <-] & H)%bind_Ok_inv.
  apply bind_Ok_inv in H as (k & s1 & E & H).
  assert (board s1 = board s) as Hs1.
  { eapply (for_in_inv (λ t, board t = board s)); [|done|exact E].
    clear -IH. intros row s1 k1 s2 _ Hs1 (m & s1' & Em & H)%bind_Ok_inv.
    apply (readonly_Ok _ _ _ _ (readonly_len_row 0)) in Em as ->.
    eapply (for_in_inv (λ t, board t = board s)); [|done|exact H].
    clear -IH. intros col s1 k1 s2 _ Hs1 (x & s1' & Ex & H)%bind_Ok_inv.
    apply load_inv in Ex as [-> Ex]. cbv beta in H.
    destruct (Z.eqb_spec x 0) as [->|_]; [|by injection H as _ <-].
    apply bind_Ok_inv in H as (k2 & s3 & Enum & H).
    apply bind_Ok_inv in H as ([] & s4 & Est & H).
    rewrite ret_run in H. injection H as _ <-.
    assert (∃ y, grid_set (board s1) row col y = Some (board s3)) as [y Hy].
    { eapply (for_in_inv (λ t, ∃ y, grid_set (board s1) row col y = Some (board t)));
        [| |exact Enum].
      - clear -IH. intros num t k1 t' _ [y Hy] (ok & t0 & Eok & H)%bind_Ok_inv.
        apply (readonly_Ok _ _ _ _ (readonly_move_valid row col num)) in Eok as ->.
        destruct ok; [|injection H as _ <-; eauto].
        apply bind_Ok_inv in H as ([] & t1 & Est & H).
        apply bind_Ok_inv in H as ([] & t2 & Esol & H).
        rewrite ret_run in H. injection H as _ <-.
        apply store_inv in Est as [Est _]. apply IH in Esol.
        exists num. rewrite Esol, <- Est. symmetry. by eapply grid_set_set.
      - exists 0. by apply grid_set_get_id. }
    apply store_inv in Est as [Est _].
    rewrite (grid_set_set _ _ _ _ _ _ Hy), (grid_set_get_id _ _ _ _ Ex) in Est.
    congruence. }
  destruct k as [|[]].
  - apply print_board_inv in H as [-> _]. done.
  - rewrite ret_run in H. by injection H as <-.
Qed.

(** ** The search on a 9x9 board *)

Lemma count_insert (P : Z → Prop) `{∀ x, Decision (P x)} (l : list Z) j x y :
  l !! j = Some x → P x → ¬ P y →
  length (filter P l) = S (length (filter P (<[j := y]> l))).
Proof.
  intros E Hx Hy. rewrite insert_take_drop by (by eapply lookup_lt_Some).
  rewrite <- (take_drop_middle l j x E) at 1.
  rewrite !filter_app, !length_app, filter_cons_True, filter_cons_False by done.
  simpl. lia.
Qed.

Lemma length_concat_wf (G : grid) :
  Forall (λ row, length row = 9%nat) G → length (concat G) = (9 * length G)%nat.
Proof. induction 1 as [|row G E _ IH]; simpl; [done|]. rewrite length_app. lia. Qed.

Lemma empties_le G : wf9 G → (empties G ≤ 81)%nat.
Proof.
  intros [HL HF]. unfold empties.
  etrans; [apply length_filter|]. rewrite length_concat_wf, HL by done. lia.
Qed.

(** Filling an empty cell leaves one empty cell fewer. *)
Lemma empties_upd G r c v :
  wf9 G → 0 ≤ r < 9 → 0 ≤ c < 9 → cell G r c = 0 → v ≠ 0 →
  empties G = S (empties (upd G r c v)).
Proof.
  intros HG Hr Hc H0 Hv.
  destruct (upd_eq G r c v HG Hr Hc) as (row & E & HL & ->).
  destruct (lookup_lt_is_Some_2 row (Z.to_nat c)) as [x Ex]; [lia|].
  rewrite (cell_lookup G r c row x) in H0 by done. subst x.
  unfold empties. rewrite insert_take_drop by (by eapply lookup_lt_Some).
  rewrite <- (take_drop_middle G _ row E) at 1.
  rewrite !concat_app, !concat_cons, !filter_app, !length_app.
  rewrite (count_insert _ row (Z.to_nat c) 0 v) by done. lia.
Qed.

Lemma upd_id G r c :
  wf9 G → 0 ≤ r < 9 → 0 ≤ c < 9 → upd G r c (cell G r c) = G.
Proof.
  intros HG Hr Hc. unfold upd.
  by rewrite (grid_set_get_id G r c (cell G r c)) by (by apply grid_get_wf9).
Qed.

Lemma upd_upd G r c x y :
  wf9 G → 0 ≤ r < 9 → 0 ≤ c < 9 → upd (upd G r c x) r c y = upd G r c y.
Proof.
  intros HG Hr Hc. unfold upd at 1 3.
  rewrite (grid_set_set G r c x y (upd G r c x)) by (by apply grid_set_wf9).
  by rewrite grid_set_wf9.
Qed.

Lemma same_unit_sym r c r' c' : same_unit r c r' c' → same_unit r' c' r c.
Proof. unfold same_unit. intuition congruence. Qed.

(** Legality of a placement at (r, c) does not look at cell (r, c). *)
Lemma legal_upd_self G r c x v :
  wf9 G → 0 ≤ r < 9 → 0 ≤ c < 9 → legal (upd G r c x) r c v ↔ legal G r c v.
Proof.
  intros HG Hr Hc. unfold legal. split; intros H r' c' Hr' Hc' Hne Hu.
  - rewrite <- (cell_upd_other G r c x) by done. auto.
  - rewrite cell_upd_other by done. auto.
Qed.

(** On a complete board there is nothing left to fill. *)
Lemma legal_fill_complete G P :
  wf9 G → complete G → legal_fill G P ↔ P = G.
Proof.
  intros HG HC. split.
  - intros (HP & Hkeep & _). apply grid_ext; [done..|].
    intros r c Hr Hc. apply Hkeep; auto.
  - intros ->. split; [done|]. split; [done|].
    intros r c Hr Hc H0. by apply HC in H0.
Qed.

(** Filling the board legally is choosing a legal value for one empty cell
    and filling the rest legally. *)
Lemma legal_fill_step G P r c :
  wf9 G → 0 ≤ r < 9 → 0 ≤ c < 9 → cell G r c = 0 →
  legal_fill G P ↔
  ∃ v, 1 ≤ v ≤ 9 ∧ legal G r c v ∧ legal_fill (upd G r c v) P.
Proof.
  intros HG Hr Hc H0. split.
  - intros (HP & Hkeep & Hfill). exists (cell P r c).
    destruct (Hfill r c Hr Hc H0) as [Hrange Hleg].
    split; [done|]. split; [|split; [done|split]].
    + intros r' c' Hr' Hc' Hne Hu.
      destruct (decide (cell G r' c' = 0)) as [E|E]; [lia|].
      rewrite <- (Hkeep r' c') by done. by apply Hleg.
    + intros r' c' Hr' Hc' Hnz.
      destruct (decide ((r', c') = (r, c))) as [[= -> ->]|Hne].
      * by rewrite cell_upd_same.
      * rewrite cell_upd_other in * by done. auto.
    + intros r' c' Hr' Hc' Hz.
      destruct (decide ((r', c') = (r, c))) as [[= -> ->]|Hne].
      * rewrite cell_upd_same in Hz by done. lia.
      * rewrite cell_upd_other in Hz by done. auto.
  - intros (v & Hv & Hleg & HP & Hkeep & Hfill).
    assert (cell P r c = v) as Hvc.
    { rewrite (Hkeep r c) by (rewrite ?cell_upd_same; done || lia).
      by apply cell_upd_same. }
    split; [done|]. split.
    + intros r' c' Hr' Hc' Hnz.
      assert ((r', c') ≠ (r, c)) as Hne by (intros [= -> ->]; done).
      rewrite <- (cell_upd_other G r c v r' c') by done.
      apply Hkeep; [done..|]. by rewrite cell_upd_other.
    + intros r' c' Hr' Hc' Hz.
      destruct (decide ((r', c') = (r, c))) as [[= -> ->]|Hne].
      * rewrite Hvc. split; [done|].
        clear Hr' Hc' Hz. intros r2 c2 Hr2 Hc2 Hne Hu.
        destruct (decide (cell G r2 c2 = 0)) as [E|E].
        -- destruct (Hfill r2 c2) as [_ Hl]; [done.. | by rewrite cell_upd_other |].
           intros Heq. apply (Hl r c); [done..| congruence | by apply same_unit_sym |].
           congruence.
        -- rewrite (Hkeep r2 c2) by (rewrite ?cell_upd_other; done).
           rewrite cell_upd_other by done. by apply Hleg.
      * apply Hfill; [done..|]. by rewrite cell_upd_other.
Qed.

(** A loop whose iterations, run in state [s], either go on without
    touching the state or return: it goes on to the end, or returns what
    one of its iterations returns. *)
Lemma for_in_scan {R} l (body : Z → M (ctl R)) s :
  (∀ i, i ∈ l → body i s = Ok Continue s ∨ ∃ r s', body i s = Ok (Return r) s') →
  (for_in l body s = Ok Continue s ∧ ∀ i, i ∈ l → body i s = Ok Continue s) ∨
  (∃ i r s', i ∈ l ∧ body i s = Ok (Return r) s' ∧ for_in l body s = Ok (Return r) s').
Proof.
  induction l as [|i l IH]; intros H; simpl.
  - left. split; [done|]. intros i Hi. by apply elem_of_nil in Hi.
  - rewrite bind_run. destruct (H i) as [E|(r & s' & E)]; [by left| |]; rewrite E.
    + destruct IH as [[E' Hall]|(j & r & s' & Hj & Ej & E')].
      * intros j Hj. apply H. by right.
      * left. split; [done|]. intros j [->|Hj]%elem_of_cons; auto.
      * right. exists j, r, s'. split; [by right | done].
    + right. exists i, r, s'. split; [by left | done].
Qed.

Section solver_step.
Context (fuel : nat).
Context (IH : ∀ G, wf9 G → (empties G < fuel)%nat → solver_returns fuel G).
Context (G : grid) (HG : wf9 G) (Hfuel : (empties G < S fuel)%nat).
Context (r c : Z) (Hr : 0 ≤ r < 9) (Hc : 0 ≤ c < 9).

Lemma fill_cell_filled out :
  cell G r c ≠ 0 → fill_cell fuel r c (State G out) = Ok Continue (State G out).
Proof.
  intros Hnz. unfold fill_cell. rewrite bind_run, load_wf9 by done. simpl.
  by destruct (Z.eqb_spec (cell G r c) 0).
Qed.

Context (H0 : cell G r c = 0).

(** One candidate value, tried while the cell holds [x]. *)
Lemma try_num_spec v x out :
  1 ≤ v ≤ 9 →
  ∃ ps x',
    try_num fuel r c v (State (upd G r c x) out)
      = Ok Continue (State (upd G r c x') (out ++ ps)) ∧
    ∀ P, P ∈ ps ↔ legal G r c v ∧ legal_fill (upd G r c v) P.
Proof.
  intros Hv. unfold try_num. pose proof (wf9_upd G r c x HG Hr Hc) as HGx.
  destruct (move_valid_wf9 (State (upd G r c x) out) HGx r c Hr Hc v) as (b & Eb & Hb).
  simpl in Hb. rewrite legal_upd_self in Hb by done.
  rewrite (bind_Ok _ _ _ _ _ Eb). destruct b.
  - rewrite bind_run, store_wf9 by done. simpl. rewrite upd_upd by done.
    destruct (IH (upd G r c v)) with (out := out) as (ps & Es & Hps).
    { by apply wf9_upd. }
    { pose proof (empties_upd G r c v HG Hr Hc H0 ltac:(lia)). lia. }
    rewrite bind_run, Es, ret_run. exists ps, v. split; [done|].
    intros P. rewrite Hps. split; [|tauto]. intros ?. split; [by apply Hb | done].
  - exists [], x. rewrite app_nil_r, ret_run. split; [done|].
    intros P. split; [by intros ?%elem_of_nil|]. intros [HL _]. by apply Hb in HL.
Qed.

(** The loop over the candidate values. *)
Lemma try_nums_spec l :
  (∀ v, v ∈ l → 1 ≤ v ≤ 9) →
  ∀ x out, ∃ ps x',
    for_in l (try_num fuel r c) (State (upd G r c x) out)
      = Ok Continue (State (upd G r c x') (out ++ ps)) ∧
    ∀ P, P ∈ ps ↔ ∃ v, v ∈ l ∧ legal G r c v ∧ legal_fill (upd G r c v) P.
Proof.
  induction l as [|v l IHl]; intros Hl x out; simpl.
  - exists [], x. rewrite app_nil_r, ret_run. split; [done|].
    intros P. split; [by intros ?%elem_of_nil|]. by intros (v & ?%elem_of_nil & _).
  - destruct (try_num_spec v x out) as (ps1 & x1 & E1 & Hps1); [apply Hl; by left|].
    destruct (IHl (λ v Hv, Hl v (list_elem_of_further _ _ _ Hv)) x1 (out ++ ps1))
      as (ps2 & x2 & E2 & Hps2).
    rewrite bind_run, E1, E2. exists (ps1 ++ ps2), x2. rewrite app_assoc.
    split; [done|]. intros P. rewrite elem_of_app, Hps1, Hps2. split.
    + intros [[? ?]|(v' & ? & ? & ?)].
      * exists v. split; [by left | done].
      * exists v'. split; [by right | done].
    + intros (v' & [->|?]%elem_of_cons & ? & ?); [by left|]. right. eauto.
Qed.

(** An empty cell: every candidate is tried, then the cell is emptied. *)
Lemma fill_cell_empty out :
  ∃ ps, fill_cell fuel r c (State G out) = Ok (Return ()) (State G (out ++ ps)) ∧
        ∀ P, P ∈ ps ↔ legal_fill G P.
Proof.
  unfold fill_cell. rewrite bind_run, load_wf9 by done. cbn [board]. rewrite H0.
  change (0 =? 0) with true. cbv iota.
  destruct (try_nums_spec (range 1 10)) with (x := 0) (out := out)
    as (ps & x' & E & Hps).
  { intros v Hv%elem_of_range. lia. }
  assert (Hid : upd G r c 0 = G) by (rewrite <- H0; by apply upd_id).
  rewrite Hid in E.
  rewrite bind_run, E, bind_run, store_wf9; [|by apply wf9_upd|done..].
  cbn [board stdout]. rewrite ret_run, upd_upd, Hid by done.
  exists ps. split; [done|]. intros P. rewrite Hps, (legal_fill_step G P r c) by done.
  setoid_rewrite elem_of_range. split.
  - intros (v & ? & ? & ?). exists v. split; [lia | done].
  - intros (v & ? & ? & ?). exists v. split; [lia | done].
Qed.
End solver_step.

(** With fuel beyond the number of empty cells, [solver] returns on every
    9x9 board, the board is restored, and the boards printed are exactly
    the legal fills. *)
Lemma solver_spec fuel :
  ∀ G, wf9 G → (empties G < fuel)%nat → solver_returns fuel G.
Proof.
  induction fuel as [|fuel IH]; intros G HG Hfuel out; [lia|].
  rewrite solver_S. set (s := State G out).
  rewrite (bind_Ok _ _ _ _ _ (len_board_wf9 s HG)), bind_run.
  assert (Hcell : ∀ r c, 0 ≤ r < 9 → 0 ≤ c < 9 →
            fill_cell fuel r c s = Ok Continue s ∧ cell G r c ≠ 0 ∨
            ∃ ps, fill_cell fuel r c s = Ok (Return ()) (State G (out ++ ps)) ∧
                  ∀ P, P ∈ ps ↔ legal_fill G P).
  { intros r c Hr Hc. destruct (decide (cell G r c = 0)) as [E|E].
    - right. by apply fill_cell_empty.
    - left. split; [|done]. by apply fill_cell_filled. }
  assert (Hrow : ∀ r, 0 ≤ r < 9 →
            fill_row fuel r s = Ok Continue s ∧ (∀ c, 0 ≤ c < 9 → cell G r c ≠ 0) ∨
            ∃ ps, fill_row fuel r s = Ok (Return ()) (State G (out ++ ps)) ∧
                  ∀ P, P ∈ ps ↔ legal_fill G P).
  { intros r Hr. unfold fill_row. rewrite (bind_Ok _ _ _ _ _ (len_row_wf9 s HG)).
    destruct (for_in_scan (range 0 9) (fill_cell fuel r) s)
      as [[E Hall]|(c & [] & s' & Hc%elem_of_range & Ec & E)].
    - intros c Hc%elem_of_range.
      destruct (Hcell r c Hr Hc) as [[? _]|(ps & ? & _)]; eauto.
    - left. split; [done|]. intros c Hc.
      destruct (Hcell r c Hr Hc) as [[_ ?]|(ps & E' & _)]; [done|].
      rewrite Hall in E' by (by apply elem_of_range). done.
    - right. destruct (Hcell r c Hr Hc) as [[E' _]|(ps & E' & Hps)]; [congruence|].
      exists ps. split; [congruence | done]. }
  destruct (for_in_scan (range 0 9) (fill_row fuel) s)
    as [[E Hall]|(r & [] & s' & Hr%elem_of_range & Er & E)].
  - intros r Hr%elem_of_range.
    destruct (Hrow r Hr) as [[? _]|(ps & ? & _)]; eauto.
  - rewrite E. rewrite print_board_wf9 by done. exists [G]. split; [done|].
    intros P. rewrite list_elem_of_singleton. symmetry. apply legal_fill_complete; [done|].
    intros r c Hr Hc.
    destruct (Hrow r Hr) as [[_ ?]|(ps & E' & _)]; [auto|].
    rewrite Hall in E' by (by apply elem_of_range). done.
  - rewrite E, ret_run. destruct (Hrow r Hr) as [[E' _]|(ps & E' & Hps)]; [congruence|].
    exists ps. split; [congruence | done].
Qed.

(** ** The example boards *)

Lemma wf9_puzzle : wf9 puzzle.
Proof. split; [reflexivity | repeat constructor]. Qed.

Lemma wf9_puzzle_solution : wf9 puzzle_solution.
Proof. split; [reflexivity | repeat constructor]. Qed.

(** On the program's puzzle the solver prints the one solution and hands
    the board back as it was. *)
Example solver_prints_solution :
  solver 82 (State puzzle []) = Ok () (State puzzle [puzzle_solution]).
Proof. vm_compute. reflexivity. Qed.

(** A 5 next to a 5 in the same row is refused. *)
Example move_valid_row_conflict :
  move_valid 0 1 5 (State corner_five []) = Ok false (State corner_five []).
Proof. vm_compute. reflexivity. Qed.

(** On a ragged board the column scan runs off a short row; the exception
    leaves the tentative value in the board. *)
Example solver_ragged_raises :
  solver 5 (State [[0; 0]; [1]] []) = Raise (State [[2; 0]; [1]] []).
Proof. vm_compute. reflexivity. Qed.

(** A complete board whose rows and columns are permutations of 1..9 but
    whose boxes repeat values is rejected. *)
Example is_valid_shifted_rows :
  is_valid (State shifted_rows []) = Ok false (State shifted_rows []) ∧
  is_complete (State shifted_rows []) = Ok true (State shifted_rows []).
Proof. split; vm_compute; reflexivity. Qed.

(** Case analysis on a row or column index. *)
Ltac each_index r :=
  let H := fresh in
  assert (r = 0 ∨ r = 1 ∨ r = 2 ∨ r = 3 ∨ r = 4 ∨ r = 5 ∨ r = 6 ∨ r = 7 ∨ r = 8)
    as H by lia;
  destruct H as [->|[->|[->|[->|[->|[->|[->|[->| ->]]]]]]]].

Lemma legal_by_run G r c v :
  wf9 G → 0 ≤ r < 9 → 0 ≤ c < 9 →
  move_valid r c v (State G []) = Ok true (State G []) → legal G r c v.
Proof.
  intros HG Hr Hc E.
  destruct (move_valid_wf9 (State G []) HG r c Hr Hc v) as (b & Eb & Hb).
  apply Hb. congruence.
Qed.

(** *** Solved boards and solutions *)

Lemma puzzle_solution_solved : solved puzzle_solution.
Proof.
  split; [apply wf9_puzzle_solution|]. intros r c Hr Hc. split.
  - each_index r; each_index c; vm_compute; split; discriminate.
  - apply legal_by_run; [apply wf9_puzzle_solution | done..|].
    each_index r; each_index c; vm_compute; reflexivity.
Qed.

Lemma puzzle_has_solution : solution_of puzzle puzzle_solution.
Proof.
  split; [apply puzzle_solution_solved|]. intros r c Hr Hc.
  each_index r; each_index c; vm_compute; congruence.
Qed.

(** The program's checks accept a solved board. *)
Lemma solved_checks S out :
  solved S →
  is_valid (State S out) = Ok true (State S out) ∧
  is_complete (State S out) = Ok true (State S out).
Proof.
  intros [HS H]. split.
  - destruct (is_valid_wf9 (State S out) HS) as (b & E & Hb).
    rewrite E. f_equal. apply Hb. intros r c Hr Hc. by apply H.
  - destruct (is_complete_wf9 (State S out) HS) as (b & E & Hb).
    rewrite E. f_equal. apply Hb. intros r c Hr Hc. simpl.
    destruct (H r c Hr Hc) as [? _]. lia.
Qed.

(** When a board has a solution, its legal fills are its solutions. *)
Lemma legal_fill_solution G S P :
  wf9 G → solution_of G S → legal_fill G P ↔ solution_of G P.
Proof.
  intros HG [[HS Hsol] Hgiven]. split.
  - intros (HP & Hkeep & Hfill). split; [split; [done|] | done].
    intros r c Hr Hc. destruct (decide (cell G r c = 0)) as [E|E]; [by apply Hfill|].
    rewrite (Hkeep r c) by done. rewrite <- (Hgiven r c) by done.
    split; [by apply Hsol|]. intros r' c' Hr' Hc' Hne Hu.
    destruct (decide (cell G r' c' = 0)) as [E'|E'].
    + destruct (Hfill r' c' Hr' Hc' E') as [_ HL].
      intros Heq. apply (HL r c); [done..| congruence | by apply same_unit_sym |].
      rewrite (Hkeep r c), <- (Hgiven r c) by done. congruence.
    + rewrite (Hkeep r' c'), <- (Hgiven r' c') by done.
      destruct (Hsol r c Hr Hc) as [_ HL]. by apply HL.
  - intros [[HP Hsolved] Hkeep]. split; [done|]. split; [done|].
    intros r c Hr Hc _. by apply Hsolved.
Qed.

(** ** Rows, columns and boxes as permutations *)

Lemma NoDup_fmap_range (f : Z → Z) :
  NoDup (f <$> range 0 9) ↔ ∀ i j, 0 ≤ i < 9 → 0 ≤ j < 9 → i ≠ j → f i ≠ f j.
Proof.
  split.
  - intros HN i j Hi Hj Hne Heq. rewrite NoDup_alt in HN.
    assert (∀ k, 0 ≤ k < 9 → (f <$> range 0 9) !! Z.to_nat k = Some (f k)) as HL.
    { intros k Hk. rewrite list_lookup_fmap. unfold range.
      rewrite lookup_seqZ_lt by lia. simpl. f_equal. f_equal. lia. }
    specialize (HN (Z.to_nat i) (Z.to_nat j) (f i) (HL i Hi)).
    rewrite Heq in HN. specialize (HN (HL j Hj)). lia.
  - intros H. apply NoDup_fmap_2_strong; [|apply NoDup_seqZ].
    intros i j Hi%elem_of_range Hj%elem_of_range Heq.
    destruct (decide (i = j)) as [|Hne]; [done|]. by apply H in Heq.
Qed.

(** Nine values of 1..9 are a permutation of the digits exactly when no
    value occurs twice. *)
Lemma perm_digits (l : list Z) :
  length l = 9%nat → (∀ x, x ∈ l → 1 ≤ x ≤ 9) → l ≡ₚ digits ↔ NoDup l.
Proof.
  intros HL Hrange. split.
  - intros HP. rewrite HP. apply NoDup_seqZ.
  - intros HN. apply submseteq_length_Permutation.
    + apply NoDup_submseteq; [done|]. intros x Hx%Hrange. apply elem_of_range. lia.
    + rewrite HL. done.
Qed.

Lemma unit_perm (f : Z → Z) :
  (∀ k, 0 ≤ k < 9 → 1 ≤ f k ≤ 9) →
  f <$> range 0 9 ≡ₚ digits ↔ ∀ i j, 0 ≤ i < 9 → 0 ≤ j < 9 → i ≠ j → f i ≠ f j.
Proof.
  intros Hf. rewrite perm_digits, NoDup_fmap_range; [done| |].
  - by rewrite length_fmap.
  - intros x (k & -> & Hk%elem_of_range)%list_elem_of_fmap. by apply Hf.
Qed.

(** Every cell's value is legal where it stands exactly when no row, no
    column and no box repeats a value. *)
Lemma all_legal_units G :
  (∀ r c, 0 ≤ r < 9 → 0 ≤ c < 9 → legal G r c (cell G r c)) ↔
  (∀ r, 0 ≤ r < 9 → ∀ i j, 0 ≤ i < 9 → 0 ≤ j < 9 → i ≠ j → cell G r i ≠ cell G r j) ∧
  (∀ c, 0 ≤ c < 9 → ∀ i j, 0 ≤ i < 9 → 0 ≤ j < 9 → i ≠ j → cell G i c ≠ cell G j c) ∧
  (∀ br bc, 0 ≤ br < 3 → 0 ≤ bc < 3 →
     ∀ i j, 0 ≤ i < 9 → 0 ≤ j < 9 → i ≠ j →
       cell G (3 * br + i `div` 3) (3 * bc + i `mod` 3)
       ≠ cell G (3 * br + j `div` 3) (3 * bc + j `mod` 3)).
Proof.
  split.
  - intros H. split; [|split].
    + intros r Hr i j Hi Hj Hne. apply (H r j); [done..| congruence | by left].
    + intros c Hc i j Hi Hj Hne. apply (H j c); [done..| congruence | right; by left].
    + intros br bc Hbr Hbc i j Hi Hj Hne.
      apply H.
      * Z.to_euclidean_division_equations; lia.
      * Z.to_euclidean_division_equations; lia.
      * Z.to_euclidean_division_equations; lia.
      * Z.to_euclidean_division_equations; lia.
      * intros [= E1 E2]. apply Hne. Z.to_euclidean_division_equations; lia.
      * right; right. Z.to_euclidean_division_equations; lia.
  - intros (Hrow & Hcol & Hbox) r c Hr Hc r' c' Hr' Hc' Hne [->|[->|[Er Ec]]].
    + apply Hrow; [done..|congruence].
    + apply Hcol; [done..|congruence].
    + pose proof (Hbox (r `div` 3) (c `div` 3)
        ltac:(Z.to_euclidean_division_equations; lia)
        ltac:(Z.to_euclidean_division_equations; lia)
        (3 * (r' `mod` 3) + c' `mod` 3) (3 * (r `mod` 3) + c `mod` 3)
        ltac:(Z.to_euclidean_division_equations; lia)
        ltac:(Z.to_euclidean_division_equations; lia)) as HB.
      replace (3 * (r `div` 3) + (3 * (r' `mod` 3) + c' `mod` 3) `div` 3) with r' in HB
        by (Z.to_euclidean_division_equations; lia).
      replace (3 * (c `div` 3) + (3 * (r' `mod` 3) + c' `mod` 3) `mod` 3) with c' in HB
        by (Z.to_euclidean_division_equations; lia).
      replace (3 * (r `div` 3) + (3 * (r `mod` 3) + c `mod` 3) `div` 3) with r in HB
        by (Z.to_euclidean_division_equations; lia).
      replace (3 * (c `div` 3) + (3 * (r `mod` 3) + c `mod` 3) `mod` 3) with c in HB
        by (Z.to_euclidean_division_equations; lia).
      apply HB. intros E. apply Hne.
      assert (r' = r ∧ c' = c) as [-> ->] by (Z.to_euclidean_division_equations; lia).
      done.
Qed.

(** * The properties of the program *)

(** ** Empty cells and [is_valid] *)

(** C1, as stated, fails: the filled cells of the program's own puzzle are
    all legal, so nothing but its empty cells can be held against it, and
    yet [is_valid] answers [False]. *)
Lemma is_valid_rejects_puzzle_blanks :
  wf9 puzzle ∧ filled_cells_legal puzzle ∧
  is_valid (State puzzle []) = Ok false (State puzzle []).
Proof.
  split; [apply wf9_puzzle|]. split; [|vm_compute; reflexivity].
  intros r c Hr Hc Hnz.
  apply legal_by_run; [apply wf9_puzzle | done..|]. revert Hnz.
  each_index r; each_index c; vm_compute;
    first [ intros _; reflexivity | intros H; exfalso; apply H; reflexivity ].
Qed.

(** C1, amended: [is_valid] scans an empty cell like any other, comparing
    its 0 with the other cells of its row, column and box.  On a 9x9 board
    it answers [True] exactly when every filled cell is legal and no two
    empty cells share a row, a column or a box; so empty cells do make it
    answer [False] as soon as two of them share a unit. *)
Theorem is_valid_scans_empty_cells (G : grid) (out : list grid) :
  wf9 G →
  ∃ b, is_valid (State G out) = Ok b (State G out) ∧
       (b = true ↔ filled_cells_legal G ∧ empty_cells_apart G).
Proof.
  intros HG. destruct (is_valid_wf9 (State G out) HG) as (b & E & Hb).
  exists b. split; [done|]. rewrite Hb. simpl. split.
  - intros H. split.
    + intros r c Hr Hc _. by apply H.
    + intros r c r' c' Hr Hc Hr' Hc' Hne Hu H0.
      specialize (H r c Hr Hc r' c' Hr' Hc' Hne Hu). by rewrite H0 in H.
  - intros [Hfill Hempty] r c Hr Hc.
    destruct (decide (cell G r c = 0)) as [E0|E0]; [|by apply Hfill].
    rewrite E0. intros r' c' Hr' Hc' Hne Hu. by apply (Hempty r c r' c').
Qed.

Lemma is_valid_scans_empty_cells_witness :
  ∃ b, is_valid (State puzzle []) = Ok b (State puzzle []) ∧
       (b = true ↔ filled_cells_legal puzzle ∧ empty_cells_apart puzzle).
Proof.
  apply (is_valid_scans_empty_cells puzzle []).
  split; [reflexivity | repeat constructor].
Defined.

(** ** What [solver] achieves *)

(** C2, as stated, fails: the program's puzzle has a solution, [solver]
    returns on it, and the board it returns is the puzzle itself, which
    [is_complete] rejects. *)
Lemma solver_leaves_puzzle_unsolved :
  solution_of puzzle puzzle_solution ∧
  solver 82 (State puzzle []) = Ok () (State puzzle [puzzle_solution]) ∧
  ∀ fuel out s', solver fuel (State puzzle out) = Ok () s' →
                 is_complete s' = Ok false s'.
Proof.
  split; [apply puzzle_has_solution|]. split; [vm_compute; reflexivity|].
  intros fuel out [G' out'] HG'%solver_board. simpl in HG'. subst G'.
  vm_compute. reflexivity.
Qed.

(** C2, amended: for every 9x9 board that has a solution, [solver] returns
    (fuel for one activation per empty cell, plus one, is enough); every
    board it hands to [print_board] is a solution of the input, accepted by
    [is_valid] and [is_complete]; each solution is among the boards printed;
    and on return the board itself is back at its initial contents, not left
    in a solved state. *)
Theorem solver_prints_solutions (G Sol : grid) (out : list grid) :
  wf9 G → solution_of G Sol →
  ∃ ps, solver (S (empties G)) (State G out) = Ok () (State G (out ++ ps)) ∧
        Sol ∈ ps ∧
        ∀ P, P ∈ ps →
             solution_of G P ∧
             ∀ o, is_valid (State P o) = Ok true (State P o) ∧
                  is_complete (State P o) = Ok true (State P o).
Proof.
  intros HG HSol.
  destruct (solver_spec (S (empties G)) G HG ltac:(lia) out) as (ps & E & Hps).
  exists ps. split; [done|]. split.
  - apply Hps. by apply (legal_fill_solution G Sol Sol).
  - intros P HP%Hps. apply (legal_fill_solution G Sol P) in HP; [|done..].
    split; [done|]. intros o. apply solved_checks. apply HP.
Qed.

Lemma solver_prints_solutions_witness :
  ∃ ps, solver (S (empties puzzle)) (State puzzle []) = Ok () (State puzzle ([] ++ ps)) ∧
        puzzle_solution ∈ ps ∧
        ∀ P, P ∈ ps →
             solution_of puzzle P ∧
             ∀ o, is_valid (State P o) = Ok true (State P o) ∧
                  is_complete (State P o) = Ok true (State P o).
Proof.
  apply (solver_prints_solutions puzzle puzzle_solution []).
  - split; [reflexivity | repeat constructor].
  - apply puzzle_has_solution.
Defined.

(** C3: whenever [solver] returns, on any board whatever, every cell of the
    board holds the value it held before the call. *)
Theorem solver_restores_board (fuel : nat) (s s' : state) :
  solver fuel s = Ok () s' →
  board s' = board s ∧ ∀ r c, grid_get (board s') r c = grid_get (board s) r c.
Proof. intros E%solver_board. rewrite E. done. Qed.

Lemma solver_restores_board_witness :
  board (State puzzle [puzzle_solution]) = board (State puzzle []) ∧
  ∀ r c, grid_get (board (State puzzle [puzzle_solution])) r c
         = grid_get (board (State puzzle [])) r c.
Proof.
  apply (solver_restores_board 82 (State puzzle []) (State puzzle [puzzle_solution])).
  vm_compute. reflexivity.
Defined.

(** ** The checks *)

(** C4: on any board, [is_valid] returns [True] exactly when, for every cell
    it visits, [move_valid] called on that cell with the cell's own value
    returns [True]. *)
Theorem is_valid_all_cells_move_valid (s s' : state) :
  is_valid s = Ok true s' ↔
  s' = s ∧ ∀ r c, visited (board s) r c →
             ∃ v, load r c s = Ok v s ∧ move_valid r c v s = Ok true s.
Proof. apply is_valid_true. Qed.

(** C5: on a 9x9 board, for an empty cell (r, c) and a value of 1..9,
    [move_valid] returns [True] exactly when the value occurs nowhere in
    row r, nowhere in column c and nowhere in the box of (r, c). *)
Theorem move_valid_empty_cell (G : grid) (out : list grid) (r c v : Z) :
  wf9 G → 0 ≤ r < 9 → 0 ≤ c < 9 → cell G r c = 0 → 1 ≤ v ≤ 9 →
  ∃ b, move_valid r c v (State G out) = Ok b (State G out) ∧
       (b = true ↔ ¬ in_row G r v ∧ ¬ in_col G c v ∧ ¬ in_box G r c v).
Proof.
  intros HG Hr Hc H0 Hv.
  destruct (move_valid_wf9 (State G out) HG r c Hr Hc v) as (b & E & Hb).
  exists b. split; [done|]. rewrite Hb. simpl. split.
  - intros HL. split; [|split].
    + intros (c' & Hc' & Ev). apply (HL r c'); [done..| |by left|done].
      intros [= ->]. lia.
    + intros (r' & Hr' & Ev). apply (HL r' c); [done..| |right; by left|done].
      intros [= ->]. lia.
    + intros (r' & c' & Hr' & Hc' & Er & Ec & Ev).
      apply (HL r' c'); [done..| |right; by right|done].
      intros [= -> ->]. lia.
  - intros (Hrow & Hcol & Hbox) r' c' Hr' Hc' Hne [->|[->|[Er Ec]]] Ev.
    + apply Hrow. by exists c'.
    + apply Hcol. by exists r'.
    + apply Hbox. by exists r', c'.
Qed.

Lemma move_valid_empty_cell_witness :
  ∃ b, move_valid 0 1 5 (State puzzle []) = Ok b (State puzzle []) ∧
       (b = true ↔ ¬ in_row puzzle 0 5 ∧ ¬ in_col puzzle 1 5 ∧ ¬ in_box puzzle 0 1 5).
Proof.
  apply (move_valid_empty_cell puzzle [] 0 1 5).
  - split; [reflexivity | repeat constructor].
  - lia.
  - lia.
  - reflexivity.
  - lia.
Defined.

(** C6: on a completely filled 9x9 board with values in 1..9, [is_valid]
    returns [True] exactly when every row, every column and every 3x3 box
    is a permutation of 1..9. *)
Theorem is_valid_filled_board (G : grid) (out : list grid) :
  wf9 G →
  (∀ r c, 0 ≤ r < 9 → 0 ≤ c < 9 → 1 ≤ cell G r c ≤ 9) →
  ∃ b, is_valid (State G out) = Ok b (State G out) ∧
       (b = true ↔
        (∀ r, 0 ≤ r < 9 → row_of G r ≡ₚ digits) ∧
        (∀ c, 0 ≤ c < 9 → col_of G c ≡ₚ digits) ∧
        (∀ br bc, 0 ≤ br < 3 → 0 ≤ bc < 3 → box_of G br bc ≡ₚ digits)).
Proof.
  intros HG Hfull. destruct (is_valid_wf9 (State G out) HG) as (b & E & Hb).
  exists b. split; [done|]. rewrite Hb. simpl. rewrite all_legal_units.
  assert (Hbox : ∀ br bc k, 0 ≤ br < 3 → 0 ≤ bc < 3 → 0 ≤ k < 9 →
            1 ≤ cell G (3 * br + k `div` 3) (3 * bc + k `mod` 3) ≤ 9).
  { intros br bc k Hbr Hbc Hk.
    apply Hfull; Z.to_euclidean_division_equations; lia. }
  split.
  - intros (Hr & Hc & Hb'). split; [|split].
    + intros r Hr'. apply unit_perm; auto.
    + intros c Hc'. apply unit_perm; auto.
    + intros br bc Hbr Hbc. apply (unit_perm (λ k, cell G _ _)); auto.
  - intros (Hr & Hc & Hb'). split; [|split].
    + intros r Hr'. apply (unit_perm (λ k, cell G r k)); auto. by apply Hr.
    + intros c Hc'. apply (unit_perm (λ k, cell G k c)); auto. by apply Hc.
    + intros br bc Hbr Hbc.
      apply (unit_perm (λ k, cell G (3 * br + k `div` 3) (3 * bc + k `mod` 3))); auto.
      by apply Hb'.
Qed.

Lemma is_valid_filled_board_witness :
  ∃ b, is_valid (State puzzle_solution []) = Ok b (State puzzle_solution []) ∧
       (b = true ↔
        (∀ r, 0 ≤ r < 9 → row_of puzzle_solution r ≡ₚ digits) ∧
        (∀ c, 0 ≤ c < 9 → col_of puzzle_solution c ≡ₚ digits) ∧
        (∀ br bc, 0 ≤ br < 3 → 0 ≤ bc < 3 → box_of puzzle_solution br bc ≡ₚ digits)).
Proof.
  apply (is_valid_filled_board puzzle_solution []).
  - split; [reflexivity | repeat constructor].
  - intros r c Hr Hc. by apply puzzle_solution_solved.
Defined.

(** C7: [solver] terminates on every 9x9 board.  A board has at most 81
    empty cells; a recursive call is made on a board with one empty cell
    fewer; and a recursion depth of one more than the number of empty cells
    is enough for the call to return. *)
Theorem solver_terminates (G : grid) (out : list grid) :
  wf9 G →
  (empties G ≤ 81)%nat ∧
  (∀ r c v, 0 ≤ r < 9 → 0 ≤ c < 9 → cell G r c = 0 → v ≠ 0 →
            S (empties (upd G r c v)) = empties G) ∧
  ∀ fuel, (empties G < fuel)%nat →
          ∃ ps, solver fuel (State G out) = Ok () (State G (out ++ ps)).
Proof.
  intros HG. split; [by apply empties_le|]. split.
  - intros r c v Hr Hc H0 Hv. symmetry. by apply empties_upd.
  - intros fuel Hfuel.
    destruct (solver_spec fuel G HG Hfuel out) as (ps & E & _). eauto.
Qed.

Lemma solver_terminates_witness :
  (empties puzzle ≤ 81)%nat ∧
  (∀ r c v, 0 ≤ r < 9 → 0 ≤ c < 9 → cell puzzle r c = 0 → v ≠ 0 →
            S (empties (upd puzzle r c v)) = empties puzzle) ∧
  ∀ fuel, (empties puzzle < fuel)%nat →
          ∃ ps, solver fuel (State puzzle []) = Ok () (State puzzle ([] ++ ps)).
Proof.
  apply (solver_terminates puzzle []).
  split; [reflexivity | repeat constructor].
Defined.

(** C8: on 9x9 boards, the answer of [move_valid] for cell (r, c) does not
    depend on what cell (r, c) holds: two boards that differ at most there
    get the same answer, which is [True] exactly when no other cell of the
    row, column or box holds the value; a cell that already holds the value
    is not in conflict with itself. *)
Theorem move_valid_ignores_target (G G' : grid) (out out' : list grid) (r c v : Z) :
  wf9 G → wf9 G' → 0 ≤ r < 9 → 0 ≤ c < 9 →
  (∀ r' c', 0 ≤ r' < 9 → 0 ≤ c' < 9 → (r', c') ≠ (r, c) →
            cell G' r' c' = cell G r' c') →
  ∃ b, move_valid r c v (State G out) = Ok b (State G out) ∧
       move_valid r c v (State G' out') = Ok b (State G' out') ∧
       (b = true ↔ legal G r c v).
Proof.
  intros HG HG' Hr Hc Hsame.
  destruct (move_valid_wf9 (State G out) HG r c Hr Hc v) as (b & E & Hb).
  destruct (move_valid_wf9 (State G' out') HG' r c Hr Hc v) as (b' & E' & Hb').
  simpl in Hb, Hb'. exists b. split; [done|]. split; [|done].
  rewrite E'. f_equal. apply eq_bool_prop_intro.
  rewrite !Is_true_true, Hb, Hb'. unfold legal.
  split; intros H r' c' Hr' Hc' Hne Hu.
  - rewrite <- Hsame by done. auto.
  - rewrite Hsame by done. auto.
Qed.

Lemma move_valid_ignores_target_witness :
  ∃ b, move_valid 0 0 1 (State puzzle []) = Ok b (State puzzle []) ∧
       move_valid 0 0 1 (State (upd puzzle 0 0 7) [])
         = Ok b (State (upd puzzle 0 0 7) []) ∧
       (b = true ↔ legal puzzle 0 0 1).
Proof.
  apply (move_valid_ignores_target puzzle (upd puzzle 0 0 7) [] [] 0 0 1).
  - split; [reflexivity | repeat constructor].
  - split; [reflexivity | repeat constructor].
  - lia.
  - lia.
  - intros r' c' Hr' Hc' Hne. apply cell_upd_other; [|lia..|done].
    split; [reflexivity | repeat constructor].
Defined.

(** C9: [move_valid] and [is_valid] never change the state: however a call
    ends, by returning or by raising, the board (and the output) is what it
    was before the call, and a second call gives the same result. *)
Theorem checks_do_not_mutate (s : state) (row col num : Z) :
  final (move_valid row col num s) = Some s ∧
  final (is_valid s) = Some s ∧
  (∀ s', final (move_valid row col num s) = Some s' →
         move_valid row col num s' = move_valid row col num s) ∧
  (∀ s', final (is_valid s) = Some s' → is_valid s' = is_valid s).
Proof.
  pose proof (readonly_move_valid row col num s) as Hm.
  pose proof (readonly_is_valid s) as Hv.
  split; [done|]. split; [done|]. split.
  - intros s'. rewrite Hm. by intros [= <-].
  - intros s'. rewrite Hv. by intros [= <-].
Qed.

(** C10: on a 9x9 board, [is_complete] returns [True] exactly when no cell
    holds 0. *)
Theorem is_complete_no_empty_cell (G : grid) (out : list grid) :
  wf9 G →
  ∃ b, is_complete (State G out) = Ok b (State G out) ∧
       (b = true ↔ ∀ r c, 0 ≤ r < 9 → 0 ≤ c < 9 → cell G r c ≠ 0).
Proof. intros HG. apply (is_complete_wf9 (State G out) HG). Qed.

Lemma is_complete_no_empty_cell_witness :
  ∃ b, is_complete (State puzzle []) = Ok b (State puzzle []) ∧
       (b = true ↔ ∀ r c, 0 ≤ r < 9 → 0 ≤ c < 9 → cell puzzle r c ≠ 0).
Proof.
  apply (is_complete_no_empty_cell puzzle []).
  split; [reflexivity | repeat constructor].
Defined.

(** * Further properties *)

(** ** Reading and writing cells of any board *)

Lemma py_index_nonneg {A} (l : list A) i : 0 ≤ i → py_index l i = l !! Z.to_nat i.
Proof.
  intros Hi. unfold py_index, norm_index. case_bool_decide as H1; [done|].
  rewrite bool_decide_eq_false_2 by lia. simpl.
  symmetry. apply lookup_ge_None. lia.
Qed.

Lemma grid_get_nonneg G r c :
  0 ≤ r → 0 ≤ c → grid_get G r c = cell_at G (Z.to_nat r) (Z.to_nat c).
Proof.
  intros Hr Hc. unfold grid_get, cell_at. rewrite py_index_nonneg by done.
  destruct (G !! Z.to_nat r); simpl; [by apply py_index_nonneg | done].
Qed.

(** What an assignment that goes through has done. *)
Lemma grid_set_inv G r c v G' :
  grid_set G r c v = Some G' →
  ∃ i j row, norm_index (length G) r = Some i ∧ G !! i = Some row ∧
             norm_index (length row) c = Some j ∧ (j < length row)%nat ∧
             grid_get G r c = row !! j ∧
             G' = <[i := <[j := v]> row]> G.
Proof.
  unfold grid_set, grid_get, py_index.
  destruct (norm_index (length G) r) as [i|] eqn:Ei; [simpl|done].
  destruct (G !! i) as [row|] eqn:E; [simpl|done].
  destruct (norm_index (length row) c) as [j|] eqn:Ej; [simpl|done].
  intros [= <-]. exists i, j, row. apply norm_index_lt in Ej as Hj. done.
Qed.

(** Assignment and lookup fail on the same indices. *)
Lemma grid_set_None G r c v : grid_set G r c v = None ↔ grid_get G r c = None.
Proof.
  unfold grid_set, grid_get, py_index.
  destruct (norm_index (length G) r) as [i|] eqn:Ei; [simpl|done].
  destruct (G !! i) as [row|] eqn:E; [simpl|done].
  destruct (norm_index (length row) c) as [j|] eqn:Ej; [simpl|done].
  apply norm_index_lt, lookup_lt_is_Some_2 in Ej as [x ->]. done.
Qed.

Lemma cell_at_insert G i j row v i' j' :
  G !! i = Some row → (j < length row)%nat →
  cell_at (<[i := <[j := v]> row]> G) i' j' =
  if decide (i' = i ∧ j' = j) then Some v else cell_at G i' j'.
Proof.
  intros E Hj. pose proof (lookup_lt_Some _ _ _ E) as Hi. unfold cell_at.
  destruct (decide (i' = i)) as [->|Hne].
  - rewrite list_lookup_insert_eq, E by done. simpl.
    destruct (decide (j' = j)) as [->|Hnej].
    + rewrite decide_True by done. by apply list_lookup_insert_eq.
    + rewrite decide_False by tauto. by apply list_lookup_insert_ne.
  - rewrite list_lookup_insert_ne by done. rewrite decide_False by tauto. done.
Qed.

(** X1: [make_move] on any board.  It raises exactly when the cell does not
    exist, leaving the state alone; otherwise only the board changes, the
    cell then reads back the number written, and (for indices counted from
    the front) every other cell reads as before. *)
Theorem make_move_read_back (s : state) (r c v : Z) :
  (grid_get (board s) r c = None → make_move r c v s = Raise s) ∧
  (is_Some (grid_get (board s) r c) →
   ∃ s', make_move r c v s = Ok () s' ∧ stdout s' = stdout s ∧
         load r c s' = Ok v s' ∧
         (0 ≤ r → 0 ≤ c → ∀ r' c', 0 ≤ r' → 0 ≤ c' → (r', c') ≠ (r, c) →
            grid_get (board s') r' c' = grid_get (board s) r' c')).
Proof.
  unfold make_move, store. split.
  - intros E%(grid_set_None _ _ _ v). by rewrite E.
  - intros HS. destruct (grid_set (board s) r c v) as [G'|] eqn:E.
    2:{ apply grid_set_None in E. rewrite E in HS. by destruct HS. }
    eexists. split; [done|]. split; [done|].
    apply grid_set_inv in E as Hinv.
    destruct Hinv as (i & j & row & Ei & Erow & Ej & Hj & _ & ->).
    pose proof (lookup_lt_Some _ _ _ Erow) as Hi. split.
    + unfold load, grid_get, py_index. simpl.
      rewrite length_insert, Ei. simpl.
      rewrite list_lookup_insert_eq by done. simpl.
      rewrite length_insert, Ej. simpl.
      by rewrite list_lookup_insert_eq.
    + intros Hr Hc r' c' Hr' Hc' Hne. simpl.
      rewrite !grid_get_nonneg by done. rewrite cell_at_insert by done.
      rewrite decide_False; [done|]. intros [Er Ec]. apply Hne.
      unfold norm_index in Ei, Ej.
      repeat case_bool_decide; simplify_eq; try lia. f_equal; lia.
Qed.

(** ** Moves of the player *)

Lemma input_valid_true row col num :
  input_valid row col num = true ↔ 0 ≤ row ≤ 8 ∧ 0 ≤ col ≤ 8 ∧ 1 ≤ num ≤ 9.
Proof.
  unfold input_valid.
  destruct (Z.ltb_spec row 0), (Z.gtb_spec row 8), (Z.ltb_spec col 0),
    (Z.gtb_spec col 8), (Z.ltb_spec num 1), (Z.gtb_spec num 9); simpl;
    split; try done; lia.
Qed.

Lemma count_insert_same (P : Z → Prop) `{∀ x, Decision (P x)} (l : list Z) j x y :
  l !! j = Some x → ¬ P x → ¬ P y →
  length (filter P (<[j := y]> l)) = length (filter P l).
Proof.
  intros E Hx Hy. rewrite insert_take_drop by (by eapply lookup_lt_Some).
  rewrite <- (take_drop_middle l j x E) at 3.
  by rewrite !filter_app, !length_app, !filter_cons_False.
Qed.

(** Overwriting a filled cell with a nonzero value leaves the number of
    empty cells as it is. *)
Lemma empties_upd_filled G r c v :
  wf9 G → 0 ≤ r < 9 → 0 ≤ c < 9 → cell G r c ≠ 0 → v ≠ 0 →
  empties (upd G r c v) = empties G.
Proof.
  intros HG Hr Hc H0 Hv.
  destruct (upd_eq G r c v HG Hr Hc) as (row & E & HL & ->).
  destruct (lookup_lt_is_Some_2 row (Z.to_nat c)) as [x Ex]; [lia|].
  rewrite (cell_lookup G r c row x) in H0 by done.
  unfold empties. rewrite insert_take_drop by (by eapply lookup_lt_Some).
  rewrite <- (take_drop_middle G _ row E) at 3.
  rewrite !concat_app, !concat_cons, !filter_app, !length_app.
  by rewrite (count_insert_same _ row (Z.to_nat c) x v).
Qed.

Lemma accepted_move_is_safe_aux G out r c n :
  wf9 G → input_valid r c n = true →
  ∃ G', make_move r c n (State G out) = Ok () (State G' out) ∧ wf9 G' ∧
        (cells_in 0 9 G → cells_in 0 9 G').
Proof.
  intros HG (Hr & Hc & Hn)%input_valid_true.
  assert (0 ≤ r < 9) as Hr' by lia. assert (0 ≤ c < 9) as Hc' by lia.
  exists (upd G r c n). split; [|split].
  - unfold make_move. by rewrite (store_wf9 (State G out)).
  - by apply wf9_upd.
  - intros Hin r2 c2 Hr2 Hc2.
    destruct (decide ((r2, c2) = (r, c))) as [[= -> ->]|Hne].
    + rewrite cell_upd_same by done. lia.
    + rewrite cell_upd_other by done. by apply Hin.
Qed.

(** X2: a move that [input_valid] accepts is safe on a 9x9 board:
    [make_move] returns, the board is still 9x9, the chosen cell holds the
    number, every other cell is unchanged, and values stay within 0..9. *)
Theorem accepted_move_is_safe (G : grid) (out : list grid) (r c n : Z) :
  wf9 G → input_valid r c n = true →
  ∃ G', make_move r c n (State G out) = Ok () (State G' out) ∧
        wf9 G' ∧ cell G' r c = n ∧
        (∀ r' c', 0 ≤ r' < 9 → 0 ≤ c' < 9 → (r', c') ≠ (r, c) →
                  cell G' r' c' = cell G r' c') ∧
        (cells_in 0 9 G → cells_in 0 9 G').
Proof.
  intros HG (Hr & Hc & Hn)%input_valid_true.
  assert (0 ≤ r < 9) as Hr' by lia. assert (0 ≤ c < 9) as Hc' by lia.
  exists (upd G r c n). split; [|split; [|split; [|split]]].
  - unfold make_move. by rewrite (store_wf9 (State G out)).
  - by apply wf9_upd.
  - by apply cell_upd_same.
  - intros r2 c2 Hr2 Hc2 Hne. by apply cell_upd_other.
  - intros Hin r2 c2 Hr2 Hc2.
    destruct (decide ((r2, c2) = (r, c))) as [[= -> ->]|Hne].
    + rewrite cell_upd_same by done. lia.
    + rewrite cell_upd_other by done. by apply Hin.
Qed.

Lemma accepted_move_is_safe_witness :
  ∃ G', make_move 0 1 5 (State puzzle []) = Ok () (State G' []) ∧
        wf9 G' ∧ cell G' 0 1 = 5 ∧
        (∀ r' c', 0 ≤ r' < 9 → 0 ≤ c' < 9 → (r', c') ≠ (0, 1) →
                  cell G' r' c' = cell puzzle r' c') ∧
        (cells_in 0 9 puzzle → cells_in 0 9 G').
Proof.
  apply (accepted_move_is_safe puzzle [] 0 1 5).
  - split; [reflexivity | repeat constructor].
  - reflexivity.
Defined.

(** X3: an accepted move never adds an empty cell: it removes one when the
    chosen cell was empty and leaves the count alone when it was filled. *)
Theorem accepted_move_progress (G : grid) (out : list grid) (r c n : Z) :
  wf9 G → input_valid r c n = true →
  ∃ G', make_move r c n (State G out) = Ok () (State G' out) ∧
        (cell G r c = 0 → S (empties G') = empties G) ∧
        (cell G r c ≠ 0 → empties G' = empties G).
Proof.
  intros HG (Hr & Hc & Hn)%input_valid_true.
  assert (0 ≤ r < 9) as Hr' by lia. assert (0 ≤ c < 9) as Hc' by lia.
  exists (upd G r c n). split; [|split].
  - unfold make_move. by rewrite (store_wf9 (State G out)).
  - intros H0. symmetry. apply empties_upd; [done..|lia].
  - intros H0. apply empties_upd_filled; [done..|lia].
Qed.

Lemma accepted_move_progress_witness :
  ∃ G', make_move 0 1 5 (State puzzle []) = Ok () (State G' []) ∧
        (cell puzzle 0 1 = 0 → S (empties G') = empties puzzle) ∧
        (cell puzzle 0 1 ≠ 0 → empties G' = empties puzzle).
Proof.
  apply (accepted_move_progress puzzle [] 0 1 5).
  - split; [reflexivity | repeat constructor].
  - reflexivity.
Defined.

(** ** Completeness and the count of empty cells *)

Lemma cell_in_concat G r c : wf9 G → 0 ≤ r < 9 → 0 ≤ c < 9 → cell G r c ∈ concat G.
Proof.
  intros HG Hr Hc. destruct (wf9_row G r HG Hr) as (row & E & HL).
  destruct (lookup_lt_is_Some_2 row (Z.to_nat c)) as [x Ex]; [lia|].
  rewrite (cell_lookup G r c row x) by done.
  apply list_elem_of_In, in_concat. exists row.
  split; apply list_elem_of_In; by eapply list_elem_of_lookup_2.
Qed.

Lemma concat_is_cell G x :
  wf9 G → x ∈ concat G → ∃ r c, 0 ≤ r < 9 ∧ 0 ≤ c < 9 ∧ cell G r c = x.
Proof.
  intros HG (row & Hrow%list_elem_of_In & Hx%list_elem_of_In)%list_elem_of_In%in_concat.
  apply list_elem_of_lookup in Hrow as [i Ei]. apply list_elem_of_lookup in Hx as [j Ej].
  pose proof (lookup_lt_Some _ _ _ Ei) as Hi. pose proof (lookup_lt_Some _ _ _ Ej) as Hj.
  destruct HG as [HL HF]. pose proof (Forall_lookup_1 _ _ _ _ HF Ei) as HLrow.
  simpl in HLrow. exists (Z.of_nat i), (Z.of_nat j).
  split; [lia|]. split; [lia|].
  apply (cell_lookup _ _ _ row); rewrite ?Nat2Z.id; try done; lia.
Qed.

Lemma complete_empties G : wf9 G → complete G ↔ empties G = 0%nat.
Proof.
  intros HG. unfold empties. split.
  - intros HC. destruct (filter _ _) as [|x l] eqn:E; [done|].
    assert (x ∈ filter (λ v, v = 0) (concat G)) as Hx by (rewrite E; left).
    apply list_elem_of_filter in Hx as [-> Hx].
    apply concat_is_cell in Hx as (r & c & Hr & Hc & H0); [|done].
    by apply HC in H0.
  - intros HE r c Hr Hc H0.
    assert (cell G r c ∈ filter (λ v, v = 0) (concat G)) as Hx.
    { apply list_elem_of_filter. split; [done | by apply cell_in_concat]. }
    apply length_zero_iff_nil in HE. rewrite HE in Hx. by apply elem_of_nil in Hx.
Qed.

(** X4: on a 9x9 board [is_complete] returns [True] exactly when the count
    of empty cells, the measure that bounds the solver's recursion, is 0. *)
Theorem is_complete_iff_no_empties (G : grid) (out : list grid) :
  wf9 G →
  ∃ b, is_complete (State G out) = Ok b (State G out) ∧
       (b = true ↔ empties G = 0%nat).
Proof.
  intros HG. destruct (is_complete_wf9 (State G out) HG) as (b & E & Hb).
  exists b. split; [done|]. rewrite Hb. by apply complete_empties.
Qed.

Lemma is_complete_iff_no_empties_witness :
  ∃ b, is_complete (State puzzle_solution []) = Ok b (State puzzle_solution []) ∧
       (b = true ↔ empties puzzle_solution = 0%nat).
Proof.
  apply (is_complete_iff_no_empties puzzle_solution []).
  split; [reflexivity | repeat constructor].
Defined.

(** ** What the solver prints, counted *)

(** One activation on a 9x9 board: either the board is complete and is
    printed, or some empty cell is filled in every legal way. *)
Lemma solver_S_run fuel G out (Φ : list grid → Prop) :
  wf9 G →
  (∀ r c, 0 ≤ r < 9 → 0 ≤ c < 9 → cell G r c = 0 →
     ∃ ps, fill_cell fuel r c (State G out) = Ok (Return ()) (State G (out ++ ps)) ∧ Φ ps) →
  (complete G → Φ [G]) →
  ∃ ps, solver (S fuel) (State G out) = Ok () (State G (out ++ ps)) ∧ Φ ps.
Proof.
  intros HG Hempty Hfull. rewrite solver_S. set (s := State G out).
  rewrite (bind_Ok _ _ _ _ _ (len_board_wf9 s HG)), bind_run.
  assert (Hcell : ∀ r c, 0 ≤ r < 9 → 0 ≤ c < 9 →
            fill_cell fuel r c s = Ok Continue s ∧ cell G r c ≠ 0 ∨
            ∃ ps, fill_cell fuel r c s = Ok (Return ()) (State G (out ++ ps)) ∧ Φ ps).
  { intros r c Hr Hc. destruct (decide (cell G r c = 0)) as [E|E].
    - right. by apply Hempty.
    - left. split; [|done]. unfold fill_cell.
      rewrite bind_run, load_wf9 by done. change (board s) with G.
      by destruct (Z.eqb_spec (cell G r c) 0). }
  assert (Hrow : ∀ r, 0 ≤ r < 9 →
            fill_row fuel r s = Ok Continue s ∧ (∀ c, 0 ≤ c < 9 → cell G r c ≠ 0) ∨
            ∃ ps, fill_row fuel r s = Ok (Return ()) (State G (out ++ ps)) ∧ Φ ps).
  { intros r Hr. unfold fill_row. rewrite (bind_Ok _ _ _ _ _ (len_row_wf9 s HG)).
    destruct (for_in_scan (range 0 9) (fill_cell fuel r) s)
      as [[E Hall]|(c & [] & s' & Hc%elem_of_range & Ec & E)].
    - intros c Hc%elem_of_range.
      destruct (Hcell r c Hr Hc) as [[? _]|(ps & ? & _)]; eauto.
    - left. split; [done|]. intros c Hc.
      destruct (Hcell r c Hr Hc) as [[_ ?]|(ps & E' & _)]; [done|].
      rewrite Hall in E' by (by apply elem_of_range). done.
    - right. destruct (Hcell r c Hr Hc) as [[E' _]|(ps & E' & Hps)]; [congruence|].
      exists ps. split; [congruence | done]. }
  destruct (for_in_scan (range 0 9) (fill_row fuel) s)
    as [[E Hall]|(r & [] & s' & Hr%elem_of_range & Er & E)].
  - intros r Hr%elem_of_range.
    destruct (Hrow r Hr) as [[? _]|(ps & ? & _)]; eauto.
  - rewrite E. rewrite print_board_wf9 by done. exists [G]. split; [done|].
    apply Hfull. intros r c Hr Hc.
    destruct (Hrow r Hr) as [[_ ?]|(ps & E' & _)]; [auto|].
    rewrite Hall in E' by (by apply elem_of_range). done.
  - rewrite E, ret_run. destruct (Hrow r Hr) as [[E' _]|(ps & E' & Hps)]; [congruence|].
    exists ps. split; [congruence | done].
Qed.

(** A legal fill of a board holds, at a filled cell, the value found there. *)
Lemma legal_fill_at G P r c v :
  wf9 G → 0 ≤ r < 9 → 0 ≤ c < 9 → v ≠ 0 → legal_fill (upd G r c v) P → cell P r c = v.
Proof.
  intros HG Hr Hc Hv (_ & Hkeep & _).
  rewrite (Hkeep r c) by (rewrite ?cell_upd_same; done). by apply cell_upd_same.
Qed.

Section solver_count.
Context (fuel : nat).
Context (IH : ∀ G, wf9 G → (empties G < fuel)%nat → solver_lists fuel G).
Context (G : grid) (HG : wf9 G) (Hfuel : (empties G < S fuel)%nat).
Context (r c : Z) (Hr : 0 ≤ r < 9) (Hc : 0 ≤ c < 9).
Context (H0 : cell G r c = 0).

Lemma try_num_count v x out :
  1 ≤ v ≤ 9 →
  ∃ ps x',
    try_num fuel r c v (State (upd G r c x) out)
      = Ok Continue (State (upd G r c x') (out ++ ps)) ∧
    NoDup ps ∧
    ∀ P, P ∈ ps ↔ legal G r c v ∧ legal_fill (upd G r c v) P.
Proof.
  intros Hv. unfold try_num. pose proof (wf9_upd G r c x HG Hr Hc) as HGx.
  destruct (move_valid_wf9 (State (upd G r c x) out) HGx r c Hr Hc v) as (b & Eb & Hb).
  simpl in Hb. rewrite legal_upd_self in Hb by done.
  rewrite (bind_Ok _ _ _ _ _ Eb). destruct b.
  - rewrite bind_run, store_wf9 by done. simpl. rewrite upd_upd by done.
    destruct (IH (upd G r c v)) with (out := out) as (ps & Es & HN & Hps).
    { by apply wf9_upd. }
    { pose proof (empties_upd G r c v HG Hr Hc H0 ltac:(lia)). lia. }
    rewrite bind_run, Es, ret_run. exists ps, v. split; [done|]. split; [done|].
    intros P. rewrite Hps. split; [|tauto]. intros ?. split; [by apply Hb | done].
  - exists [], x. rewrite app_nil_r, ret_run. split; [done|]. split; [constructor|].
    intros P. split; [by intros ?%elem_of_nil|]. intros [HL _]. by apply Hb in HL.
Qed.

Lemma try_nums_count l :
  NoDup l → (∀ v, v ∈ l → 1 ≤ v ≤ 9) →
  ∀ x out, ∃ ps x',
    for_in l (try_num fuel r c) (State (upd G r c x) out)
      = Ok Continue (State (upd G r c x') (out ++ ps)) ∧
    NoDup ps ∧
    ∀ P, P ∈ ps ↔ ∃ v, v ∈ l ∧ legal G r c v ∧ legal_fill (upd G r c v) P.
Proof.
  induction l as [|v l IHl]; intros HNl Hl x out; simpl.
  - exists [], x. rewrite app_nil_r, ret_run. split; [done|]. split; [constructor|].
    intros P. split; [by intros ?%elem_of_nil|]. by intros (v & ?%elem_of_nil & _).
  - apply NoDup_cons in HNl as [Hv HNl].
    destruct (try_num_count v x out) as (ps1 & x1 & E1 & HN1 & Hps1); [apply Hl; by left|].
    destruct (IHl HNl (λ v Hv, Hl v (list_elem_of_further _ _ _ Hv)) x1 (out ++ ps1))
      as (ps2 & x2 & E2 & HN2 & Hps2).
    rewrite bind_run, E1, E2. exists (ps1 ++ ps2), x2. rewrite app_assoc.
    split; [done|]. split.
    + apply NoDup_app. split; [done|]. split; [|done].
      intros P [_ HP1]%Hps1 (v' & Hv' & _ & HP2)%Hps2.
      apply legal_fill_at in HP1; [|done..|specialize (Hl v (list_elem_of_here _ _)); lia].
      apply legal_fill_at in HP2;
        [|done..|specialize (Hl v' (list_elem_of_further _ _ _ Hv')); lia].
      congruence.
    + intros P. rewrite elem_of_app, Hps1, Hps2. split.
      * intros [[? ?]|(v' & ? & ? & ?)].
        -- exists v. split; [by left | done].
        -- exists v'. split; [by right | done].
      * intros (v' & [->|?]%elem_of_cons & ? & ?); [by left|]. right. eauto.
Qed.

Lemma fill_cell_count out :
  ∃ ps, fill_cell fuel r c (State G out) = Ok (Return ()) (State G (out ++ ps)) ∧
        NoDup ps ∧ ∀ P, P ∈ ps ↔ legal_fill G P.
Proof.
  unfold fill_cell. rewrite bind_run, load_wf9 by done. cbn [board]. rewrite H0.
  change (0 =? 0) with true. cbv iota.
  destruct (try_nums_count (range 1 10)) with (x := 0) (out := out)
    as (ps & x' & E & HN & Hps).
  { apply NoDup_seqZ. }
  { intros v Hv%elem_of_range. lia. }
  assert (Hid : upd G r c 0 = G) by (rewrite <- H0; by apply upd_id).
  rewrite Hid in E.
  rewrite bind_run, E, bind_run, store_wf9; [|by apply wf9_upd|done..].
  cbn [board stdout]. rewrite ret_run, upd_upd, Hid by done.
  exists ps. split; [done|]. split; [done|].
  intros P. rewrite Hps, (legal_fill_step G P r c) by done.
  setoid_rewrite elem_of_range. split.
  - intros (v & ? & ? & ?). exists v. split; [lia | done].
  - intros (v & ? & ? & ?). exists v. split; [lia | done].
Qed.
End solver_count.

(** With fuel beyond the number of empty cells, [solver] prints every legal
    fill of a 9x9 board exactly once. *)
Lemma solver_spec_count fuel :
  ∀ G, wf9 G → (empties G < fuel)%nat → solver_lists fuel G.
Proof.
  induction fuel as [|fuel IH]; intros G HG Hfuel out; [lia|].
  apply (solver_S_run fuel G out (λ ps, NoDup ps ∧ ∀ P, P ∈ ps ↔ legal_fill G P)).
  - done.
  - intros r c Hr Hc H0. by apply fill_cell_count.
  - intros HC. split; [apply NoDup_singleton|].
    intros P. rewrite list_elem_of_singleton. symmetry. by apply legal_fill_complete.
Qed.

Lemma NoDup_only {A} (l : list A) x : NoDup l → (∀ y, y ∈ l ↔ y = x) → l = [x].
Proof.
  intros HN H. destruct l as [|y l].
  - specialize (H x). destruct H as [_ H]. specialize (H eq_refl). by apply elem_of_nil in H.
  - assert (y = x) as -> by (apply H; left).
    destruct l as [|z l]; [done|].
    assert (z = x) as -> by (apply H; right; left).
    apply NoDup_cons in HN as [HN _]. exfalso. apply HN. left.
Qed.

Lemma NoDup_none {A} (l : list A) : (∀ y, y ∉ l) → l = [].
Proof. destruct l as [|y l]; [done|]. intros H. exfalso. apply (H y). left. Qed.

(** When the givens of a board are in 1..9 and do not clash, its legal
    fills are its solutions. *)
Lemma legal_fill_consistent G P :
  wf9 G → cells_in 0 9 G → filled_cells_legal G →
  legal_fill G P ↔ solution_of G P.
Proof.
  intros HG Hin Hgiven. split.
  - intros (HP & Hkeep & Hfill). split; [split; [done|] | done].
    intros r c Hr Hc. destruct (decide (cell G r c = 0)) as [E|E]; [by apply Hfill|].
    rewrite (Hkeep r c) by done. split; [specialize (Hin r c Hr Hc); lia|].
    intros r' c' Hr' Hc' Hne Hu.
    destruct (decide (cell G r' c' = 0)) as [E'|E'].
    + destruct (Hfill r' c' Hr' Hc' E') as [_ HL].
      intros Heq. apply (HL r c); [done..| congruence | by apply same_unit_sym |].
      rewrite (Hkeep r c) by done. congruence.
    + rewrite (Hkeep r' c') by done. by apply Hgiven.
  - intros [[HP Hsolved] Hkeep]. split; [done|]. split; [done|].
    intros r c Hr Hc _. by apply Hsolved.
Qed.

Lemma wf9_by_run G :
  bool_decide (length G = 9%nat) && forallb (λ row, bool_decide (length row = 9%nat)) G = true →
  wf9 G.
Proof.
  intros [H1 H2]%andb_true_iff. apply bool_decide_eq_true in H1. split; [done|].
  apply Forall_forall. intros row Hrow%list_elem_of_In.
  rewrite forallb_forall in H2. specialize (H2 row Hrow). by apply bool_decide_eq_true in H2.
Qed.

Lemma puzzle_cells_in : cells_in 0 9 puzzle.
Proof. intros r c Hr Hc. each_index r; each_index c; vm_compute; split; discriminate. Qed.

Lemma puzzle_givens_legal : filled_cells_legal puzzle.
Proof.
  intros r c Hr Hc Hnz.
  apply legal_by_run; [apply wf9_puzzle | done..|]. revert Hnz.
  each_index r; each_index c; vm_compute;
    first [ intros _; reflexivity | intros H; exfalso; apply H; reflexivity ].
Qed.

(** X5: on a 9x9 board whose givens lie in 1..9 and do not clash, [solver]
    returns with the board restored, and the boards it has printed are the
    solutions of the board, each one printed exactly once. *)
Theorem solver_prints_each_solution_once (G : grid) (out : list grid) :
  wf9 G → cells_in 0 9 G → filled_cells_legal G →
  ∃ ps, solver (S (empties G)) (State G out) = Ok () (State G (out ++ ps)) ∧
        NoDup ps ∧ ∀ P, P ∈ ps ↔ solution_of G P.
Proof.
  intros HG Hin Hgiven.
  destruct (solver_spec_count (S (empties G)) G HG ltac:(lia) out) as (ps & E & HN & Hps).
  exists ps. split; [done|]. split; [done|].
  intros P. rewrite Hps. by apply legal_fill_consistent.
Qed.

Lemma solver_prints_each_solution_once_witness :
  ∃ ps, solver (S (empties puzzle)) (State puzzle []) = Ok () (State puzzle ([] ++ ps)) ∧
        NoDup ps ∧ ∀ P, P ∈ ps ↔ solution_of puzzle P.
Proof.
  apply (solver_prints_each_solution_once puzzle []).
  - split; [reflexivity | repeat constructor].
  - apply puzzle_cells_in.
  - apply puzzle_givens_legal.
Defined.

(** X6: when a 9x9 board has exactly one solution, [solver] prints that
    solution, once, and nothing else. *)
Theorem solver_unique_solution (G Sol : grid) (out : list grid) :
  wf9 G → solution_of G Sol → (∀ P, solution_of G P → P = Sol) →
  solver (S (empties G)) (State G out) = Ok () (State G (out ++ [Sol])).
Proof.
  intros HG HSol Huniq.
  destruct (solver_spec_count (S (empties G)) G HG ltac:(lia) out) as (ps & E & HN & Hps).
  rewrite E. do 3 f_equal. apply NoDup_only; [done|].
  intros P. rewrite Hps, (legal_fill_solution G Sol P) by done.
  split; [by apply Huniq | by intros ->].
Qed.

Lemma puzzle_solution_unique P : solution_of puzzle P → P = puzzle_solution.
Proof.
  intros HP%(legal_fill_solution puzzle puzzle_solution P wf9_puzzle puzzle_has_solution).
  destruct (solver_spec 82 puzzle wf9_puzzle ltac:(vm_compute; lia) []) as (ps & E & Hps).
  apply Hps in HP. vm_compute in E. injection E as <-.
  by apply list_elem_of_singleton in HP.
Qed.

Lemma solver_unique_solution_witness :
  solver (S (empties puzzle)) (State puzzle [])
    = Ok () (State puzzle ([] ++ [puzzle_solution])).
Proof.
  apply (solver_unique_solution puzzle puzzle_solution []).
  - split; [reflexivity | repeat constructor].
  - apply puzzle_has_solution.
  - apply puzzle_solution_unique.
Defined.

(** X7: [solver] does not check a board that has no empty cell: it prints
    the board once, whether it is a valid Sudoku or not, and returns. *)
Theorem solver_complete_board (G : grid) (out : list grid) (fuel : nat) :
  wf9 G → complete G →
  solver (S fuel) (State G out) = Ok () (State G (out ++ [G])).
Proof.
  intros HG HC.
  destruct (solver_spec_count (S fuel) G HG) with (out := out) as (ps & E & HN & Hps).
  { apply complete_empties in HC; [lia | done]. }
  rewrite E. do 3 f_equal. apply NoDup_only; [done|].
  intros P. rewrite Hps. by apply legal_fill_complete.
Qed.

Lemma solver_complete_board_witness :
  solver 1 (State shifted_rows []) = Ok () (State shifted_rows ([] ++ [shifted_rows])).
Proof.
  apply (solver_complete_board shifted_rows [] 0).
  - apply wf9_by_run. vm_compute. reflexivity.
  - apply complete_empties; [apply wf9_by_run|]; vm_compute; reflexivity.
Defined.

(** X8: on a 9x9 board without solution, whose givens lie in 1..9 and do
    not clash, [solver] returns without having printed anything and with
    the board as it was: failure is not reported in any other way. *)
Theorem solver_no_solution (G : grid) (out : list grid) :
  wf9 G → cells_in 0 9 G → filled_cells_legal G →
  (∀ P, ¬ solution_of G P) →
  solver (S (empties G)) (State G out) = Ok () (State G out).
Proof.
  intros HG Hin Hgiven Hnone.
  destruct (solver_spec_count (S (empties G)) G HG ltac:(lia) out) as (ps & E & HN & Hps).
  rewrite E. do 2 f_equal. rewrite (NoDup_none ps); [by rewrite app_nil_r|].
  intros P HP%Hps. apply (Hnone P). by apply legal_fill_consistent.
Qed.

Lemma wf9_dead_end : wf9 dead_end.
Proof. apply wf9_by_run. vm_compute. reflexivity. Qed.

Lemma dead_end_no_solution P : ¬ solution_of dead_end P.
Proof.
  intros [[HP Hsolved] Hkeep].
  destruct (Hsolved 0 0 ltac:(lia) ltac:(lia)) as [Hv HL].
  assert (∀ k, 1 ≤ k ≤ 8 → cell P 0 k = k) as Hrow.
  { intros k Hk. rewrite Hkeep by (try lia; each_index k; try lia; vm_compute; discriminate).
    each_index k; try lia; reflexivity. }
  assert (cell P 1 0 = 9) as Hcol by (by rewrite Hkeep).
  assert (∀ k, 1 ≤ k ≤ 8 → cell P 0 0 ≠ k) as Hne.
  { intros k Hk Heq. apply (HL 0 k); [lia..| | by left | ].
    - intros [= ->]. lia.
    - rewrite Hrow by done. congruence. }
  assert (cell P 0 0 ≠ 9) as Hne9.
  { intros Heq. apply (HL 1 0); [lia..| done | right; by left | congruence]. }
  assert (cell P 0 0 = 1 ∨ cell P 0 0 = 2 ∨ cell P 0 0 = 3 ∨ cell P 0 0 = 4 ∨
          cell P 0 0 = 5 ∨ cell P 0 0 = 6 ∨ cell P 0 0 = 7 ∨ cell P 0 0 = 8 ∨
          cell P 0 0 = 9) as Hcases by lia.
  destruct Hcases as [E|[E|[E|[E|[E|[E|[E|[E|E]]]]]]]];
    first [ by apply Hne9 | eapply Hne; [|exact E]; lia ].
Qed.

Lemma solver_no_solution_witness :
  solver (S (empties dead_end)) (State dead_end []) = Ok () (State dead_end []).
Proof.
  apply (solver_no_solution dead_end []).
  - apply wf9_by_run. vm_compute. reflexivity.
  - intros r c Hr Hc. each_index r; each_index c; vm_compute; split; discriminate.
  - intros r c Hr Hc Hnz.
    apply legal_by_run; [apply wf9_dead_end | done..|]. revert Hnz.
    each_index r; each_index c; vm_compute;
      first [ intros _; reflexivity | intros H; exfalso; apply H; reflexivity ].
  - apply dead_end_no_solution.
Defined.



(** ** Placements approved by [move_valid] *)

(** X10: [move_valid] and [make_move] compose: on a 9x9 board whose filled
    cells do not clash, writing a nonzero value that [move_valid] has just
    approved gives a board whose filled cells do not clash either. *)
Theorem approved_move_keeps_consistency (G : grid) (out : list grid) (r c v : Z) :
  wf9 G → 0 ≤ r < 9 → 0 ≤ c < 9 → v ≠ 0 →
  filled_cells_legal G →
  move_valid r c v (State G out) = Ok true (State G out) →
  ∃ G', make_move r c v (State G out) = Ok () (State G' out) ∧
        filled_cells_legal G'.
Proof.
  intros HG Hr Hc Hv Hfill Hok.
  destruct (move_valid_wf9 (State G out) HG r c Hr Hc v) as (b & Eb & Hb).
  assert (legal G r c v) as HL by (apply Hb; congruence).
  exists (upd G r c v). split.
  - unfold make_move. by rewrite (store_wf9 (State G out)).
  - intros r1 c1 Hr1 Hc1 Hnz.
    destruct (decide ((r1, c1) = (r, c))) as [[= -> ->]|Hne].
    + rewrite cell_upd_same by done. by apply legal_upd_self.
    + rewrite cell_upd_other in * by done.
      intros r2 c2 Hr2 Hc2 Hne2 Hu.
      destruct (decide ((r2, c2) = (r, c))) as [[= -> ->]|Hne3].
      * rewrite cell_upd_same by done. intros Heq.
        apply (HL r1 c1); [done..| by apply same_unit_sym | done].
      * rewrite cell_upd_other by done. by apply Hfill.
Qed.

Lemma approved_move_keeps_consistency_witness :
  ∃ G', make_move 0 1 5 (State puzzle []) = Ok () (State G' []) ∧
        filled_cells_legal G'.
Proof.
  apply (approved_move_keeps_consistency puzzle [] 0 1 5).
  - split; [reflexivity | repeat constructor].
  - lia.
  - lia.
  - discriminate.
  - apply puzzle_givens_legal.
  - vm_compute. reflexivity.
Defined.

(** ** Edge cases: the empty board and indices off the board *)

(** X11: on the empty board [is_valid] and [is_complete] return [True]
    (their loops have nothing to visit), [solver] prints the empty board
    and returns, while [move_valid] and [make_move] raise, whatever their
    arguments. *)
Theorem empty_board_behaviour (out : list grid) (fuel : nat) (r c v : Z) :
  is_valid (State [] out) = Ok true (State [] out) ∧
  is_complete (State [] out) = Ok true (State [] out) ∧
  solver (S fuel) (State [] out) = Ok () (State [] (out ++ [[]])) ∧
  move_valid r c v (State [] out) = Raise (State [] out) ∧
  make_move r c v (State [] out) = Raise (State [] out).
Proof.
  repeat split; try reflexivity.
  unfold make_move, store, grid_set, norm_index. simpl.
  by repeat case_bool_decide; try lia.
Qed.

Lemma range_0_9 : range 0 9 = 0 :: 1 :: range 2 9.
Proof. reflexivity. Qed.

Lemma load_off_row G out r i :
  wf9 G → ¬ (-9 ≤ r < 9) → load r i (State G out) = Raise (State G out).
Proof.
  intros [HL _] Hr. unfold load, grid_get, py_index, norm_index. simpl. rewrite HL.
  rewrite !bool_decide_eq_false_2 by lia. done.
Qed.

Lemma load_off_col G out r c :
  wf9 G → 0 ≤ r < 9 → ¬ (-9 ≤ c < 9) → load r c (State G out) = Raise (State G out).
Proof.
  intros HG Hr Hc. destruct (wf9_row G r HG Hr) as (row & E & HL).
  unfold load, grid_get, py_index. simpl.
  rewrite norm_index_nonneg by (destruct HG; lia). simpl. rewrite E. simpl.
  unfold norm_index. rewrite HL, !bool_decide_eq_false_2 by lia. done.
Qed.

(** X12: [move_valid] checks no bounds.  On a 9x9 board, a row index
    outside -9..8 makes it raise.  A column index outside -9..8, with a row
    index on the board, makes it answer [False] when the value occurs in
    the row and raise otherwise.  The state is unchanged in each case. *)
Theorem move_valid_off_board (G : grid) (out : list grid) (r c v : Z) :
  wf9 G →
  (¬ (-9 ≤ r < 9) → move_valid r c v (State G out) = Raise (State G out)) ∧
  (0 ≤ r < 9 → ¬ (-9 ≤ c < 9) →
     (in_row G r v → move_valid r c v (State G out) = Ok false (State G out)) ∧
     (¬ in_row G r v → move_valid r c v (State G out) = Raise (State G out))).
Proof.
  intros HG. set (s := State G out). split.
  - intros Hr. unfold move_valid.
    rewrite (bind_Ok _ _ _ _ _ (len_row_wf9 s HG)), range_0_9.
    cbn [for_in]. rewrite !bind_run.
    destruct (Z.eqb_spec 0 c) as [<-|Hc]; cbn [negb].
    + rewrite ret_run. cbv iota. rewrite !bind_run. change (1 =? 0) with false.
      cbn [negb]. rewrite bind_run. unfold s. by rewrite load_off_row.
    + rewrite bind_run. unfold s. by rewrite load_off_row.
  - intros Hr Hc.
    assert (Hscan : for_in (range 0 9)
              (λ i, if negb (i =? c) then
                      x ← load r i;
                      if x =? v then mret (Return false) else mret Continue
                    else mret Continue) s
            = Ok (first_ret (λ i, if bool_decide (cell G r i = v)
                                  then Return false else Continue) (range 0 9)) s).
    { apply for_in_pure. intros i Hi%elem_of_range.
      destruct (Z.eqb_spec i c) as [->|_]; [lia|]. cbn [negb].
      rewrite bind_run, load_wf9 by done. change (board s) with G.
      destruct (Z.eqb_spec (cell G r i) v) as [E|E].
      - by rewrite bool_decide_eq_true_2.
      - by rewrite bool_decide_eq_false_2. }
    unfold move_valid.
    rewrite (bind_Ok _ _ _ _ _ (len_row_wf9 s HG)), bind_run, Hscan.
    match goal with |- context [first_ret ?f ?l] =>
      destruct (first_ret f l) as [|b] eqn:E end.
    + rewrite first_ret_Continue in E. split.
      * intros (c' & Hc' & Hv). specialize (E c' ltac:(by apply elem_of_range)).
        by rewrite bool_decide_eq_true_2 in E.
      * intros _. rewrite (bind_Ok _ _ _ _ _ (len_board_wf9 s HG)), range_0_9.
        cbn [for_in]. rewrite !bind_run.
        destruct (Z.eqb_spec 0 r) as [<-|Hr0]; cbn [negb].
        -- rewrite ret_run. cbv iota. rewrite !bind_run. change (1 =? 0) with false.
           cbn [negb]. rewrite bind_run. unfold s. by rewrite load_off_col.
        -- rewrite bind_run. unfold s. by rewrite load_off_col.
    + apply first_ret_Return in E as (i & Hi%elem_of_range & E).
      case_bool_decide as Hd; [|done]. injection E as <-. split; [done|].
      intros Hnot. exfalso. apply Hnot. by exists i.
Qed.

Lemma move_valid_off_board_witness :
  (¬ (-9 ≤ 9 < 9) → move_valid 9 0 1 (State puzzle []) = Raise (State puzzle [])) ∧
  (0 ≤ 9 < 9 → ¬ (-9 ≤ 0 < 9) →
     (in_row puzzle 9 1 → move_valid 9 0 1 (State puzzle []) = Ok false (State puzzle [])) ∧
     (¬ in_row puzzle 9 1 → move_valid 9 0 1 (State puzzle []) = Raise (State puzzle []))).
Proof.
  apply (move_valid_off_board puzzle [] 9 0 1).
  split; [reflexivity | repeat constructor].
Defined.

(** ** The givens survive every run of the solver *)

Lemma ends_in_ret {A} (I : state → Prop) (a : A) s : I s → ends_in I (mret a) s.
Proof. intros H s'. rewrite ret_run. simpl. by intros [= <-]. Qed.

Lemma ends_in_readonly {A} (I : state → Prop) (m : M A) s :
  readonly m → I s → ends_in I m s.
Proof. intros Hro H s'. rewrite Hro. by intros [= <-]. Qed.

Lemma ends_in_bind {A B} (I : state → Prop) (m : M A) (f : A → M B) s :
  ends_in I m s → (∀ a s1, I s1 → m s = Ok a s1 → ends_in I (f a) s1) →
  ends_in I (m ≫= f) s.
Proof.
  intros Hm Hf s'. rewrite bind_run. specialize (Hm). unfold ends_in in Hm.
  destruct (m s) as [a s1| s1 |] eqn:E; simpl.
  - apply Hf; [|done]. by apply Hm.
  - intros [= <-]. by apply Hm.
  - done.
Qed.

Lemma ends_in_for_in {R} (I : state → Prop) l (body : Z → M (ctl R)) s :
  (∀ i s1, i ∈ l → I s1 → ends_in I (body i) s1) → I s →
  ends_in I (for_in l body) s.
Proof.
  revert s. induction l as [|i l IH]; intros s Hb Hs; simpl.
  - by apply ends_in_ret.
  - apply ends_in_bind; [apply Hb; [by left | done]|].
    intros [|r] s1 Hs1 _.
    + apply IH; [|done]. intros j s2 Hj. apply Hb. by right.
    + by apply ends_in_ret.
Qed.

Lemma keeps_givens_refl G : keeps_givens G G.
Proof. split; [done|]. split; [eauto | done]. Qed.

Lemma keeps_givens_trans G1 G2 G3 :
  keeps_givens G1 G2 → keeps_givens G2 G3 → keeps_givens G1 G3.
Proof.
  intros (HL1 & HS1 & HV1) (HL2 & HS2 & HV2). split; [congruence|]. split.
  - intros i row E. destruct (HS1 i row E) as (row2 & E2 & HL).
    destruct (HS2 i row2 E2) as (row3 & E3 & HL'). exists row3. split; [done | congruence].
  - intros i j v E Hv. apply HV2; [|done]. by apply HV1.
Qed.

(** An empty cell of the later board was empty in the earlier one. *)
Lemma keeps_givens_empty G G' i j :
  keeps_givens G G' → cell_at G' i j = Some 0 → cell_at G i j = Some 0.
Proof.
  intros (HL & HS & HV) E'. unfold cell_at in E'.
  destruct (G' !! i) as [row'|] eqn:Erow'; [simpl in E'|done].
  pose proof (lookup_lt_Some _ _ _ Erow') as Hi. rewrite HL in Hi.
  destruct (lookup_lt_is_Some_2 G i Hi) as [row Erow].
  destruct (HS i row Erow) as (row2 & E2 & HLrow).
  assert (row2 = row') as -> by congruence.
  pose proof (lookup_lt_Some _ _ _ E') as Hj. rewrite HLrow in Hj.
  destruct (lookup_lt_is_Some_2 row j Hj) as [v Ev].
  assert (cell_at G i j = Some v) as Ecell by (unfold cell_at; by rewrite Erow).
  destruct (decide (v = 0)) as [->|Hv]; [done|].
  specialize (HV i j v Ecell Hv). unfold cell_at in HV. rewrite Erow' in HV.
  simpl in HV. congruence.
Qed.

(** Writing to a cell that was empty in [G0] keeps the givens of [G0]. *)
Lemma keeps_givens_set G0 G G' row col x :
  keeps_givens G0 G → 0 ≤ row → 0 ≤ col →
  cell_at G0 (Z.to_nat row) (Z.to_nat col) = Some 0 →
  grid_set G row col x = Some G' → keeps_givens G0 G'.
Proof.
  intros (HL & HS & HV) Hrow Hcol H0 Hset.
  apply grid_set_inv in Hset as (i & j & rw & Ei & Erw & Ej & Hj & _ & ->).
  assert (i = Z.to_nat row) as ->.
  { unfold norm_index in Ei. repeat case_bool_decide; simplify_eq; lia. }
  assert (j = Z.to_nat col) as ->.
  { unfold norm_index in Ej. repeat case_bool_decide; simplify_eq; lia. }
  pose proof (lookup_lt_Some _ _ _ Erw) as Hi.
  split; [by rewrite length_insert|]. split.
  - intros i' r0 E0. destruct (HS i' r0 E0) as (r' & E' & HLr).
    destruct (decide (i' = Z.to_nat row)) as [->|Hne].
    + exists (<[Z.to_nat col := x]> rw). rewrite list_lookup_insert_eq by done.
      split; [done|]. rewrite length_insert. congruence.
    + exists r'. by rewrite list_lookup_insert_ne.
  - intros i' j' v E Hv. rewrite cell_at_insert by done.
    rewrite decide_False; [by apply HV|]. intros [-> ->]. congruence.
Qed.

Lemma ends_in_store (I : state → Prop) row col x s :
  I s → (∀ G', grid_set (board s) row col x = Some G' → I (State G' (stdout s))) →
  ends_in I (store row col x) s.
Proof.
  intros Hs H s'. unfold store. destruct (grid_set _ _ _ _) as [G'|]; simpl.
  - intros [= <-]. by apply H.
  - by intros [= <-].
Qed.

Lemma ends_in_print_board (I : state → Prop) s :
  I s → (∀ out, I (State (board s) out)) → ends_in I print_board s.
Proof.
  intros Hs H s'. unfold print_board. destruct (forallb _ _); simpl.
  - intros [= <-]. apply H.
  - by intros [= <-].
Qed.

Lemma solver_keeps_givens fuel :
  ∀ s, ends_in (λ t, keeps_givens (board s) (board t)) (solver fuel) s.
Proof.
  induction fuel as [|fuel IH]; intros s; [by intros s'|]. rewrite solver_S.
  set (I := λ t, keeps_givens (board s) (board t)).
  assert (I s) as Hs by apply keeps_givens_refl.
  apply ends_in_bind; [by apply ends_in_readonly; auto with ro|].
  intros n s0 Hs0 _. apply ends_in_bind.
  - apply ends_in_for_in; [|done].
    intros row t1 Hrow%elem_of_range Ht1. unfold fill_row.
    apply ends_in_bind; [by apply ends_in_readonly; auto with ro|].
    intros m t2 Ht2 _. apply ends_in_for_in; [|done].
    intros col u1 Hcol%elem_of_range Hu1. unfold fill_cell.
    apply ends_in_bind; [by apply ends_in_readonly; auto with ro|].
    intros x u2 Hu2 [-> Ex]%load_inv.
    destruct (Z.eqb_spec x 0) as [->|_]; [|by apply ends_in_ret].
    assert (cell_at (board s) (Z.to_nat row) (Z.to_nat col) = Some 0) as H0.
    { apply (keeps_givens_empty _ (board u1)); [done|].
      rewrite <- grid_get_nonneg by lia. done. }
    apply ends_in_bind.
    + apply ends_in_for_in; [|done].
      intros num w1 _ Hw1. unfold try_num.
      apply ends_in_bind.
      { apply ends_in_readonly; [apply readonly_move_valid | done]. }
      intros ok w2 Hw2 _. destruct ok; [|by apply ends_in_ret].
      apply ends_in_bind.
      { apply ends_in_store; [done|]. intros G' HG'. unfold I. simpl.
        apply (keeps_givens_set (board s) (board w2) G' row col num);
          [exact Hw2 | lia | lia | done | done]. }
      intros [] w3 Hw3 _. apply ends_in_bind.
      { intros w4 Hw4%IH. unfold I. by eapply keeps_givens_trans. }
      intros [] w4 Hw4 _. by apply ends_in_ret.
    + intros k u3 Hu3 _. apply ends_in_bind; [|intros; by apply ends_in_ret].
      apply ends_in_store; [done|]. intros G' HG'. unfold I. simpl.
      apply (keeps_givens_set (board s) (board u3) G' row col 0);
        [exact Hu3 | lia | lia | done | done].
  - intros [|[]] s1 Hs1 _; [|by apply ends_in_ret].
    apply ends_in_print_board; [done|]. intros out. done.
Qed.

(** X13: [solver] never changes a filled cell, on any board and however
    the run ends: when it returns and also when an exception escapes, the
    board has its old shape and every cell that was filled before the call
    holds its old value. *)
Theorem solver_never_touches_givens (fuel : nat) (s s' : state) :
  final (solver fuel s) = Some s' → keeps_givens (board s) (board s').
Proof. apply solver_keeps_givens. Qed.

Lemma solver_never_touches_givens_witness :
  keeps_givens (board (State [[0; 0]; [1]] [])) (board (State [[2; 0]; [1]] [])).
Proof.
  apply (solver_never_touches_givens 5 (State [[0; 0]; [1]] []) (State [[2; 0]; [1]] [])).
  vm_compute. reflexivity.
Defined.

(** ** The main block *)

Lemma play_unfold {line} (int_tail int_all : line → option Z) fuel inp :
  play int_tail int_all fuel inp =
  (full ← is_complete;
   if full : bool then finish fuel
   else
     match inp with
     | [] => mret InputExhausted
     | l1 :: inp1 =>
         match int_tail l1 with
         | None => play int_tail int_all fuel inp1
         | Some c1 =>
             match inp1 with
             | [] => mret InputExhausted
             | l2 :: inp2 =>
                 match int_tail l2 with
                 | None => play int_tail int_all fuel inp2
                 | Some r1 =>
                     match inp2 with
                     | [] => mret InputExhausted
                     | l3 :: inp3 =>
                         match int_all l3 with
                         | None => play int_tail int_all fuel inp3
                         | Some n =>
                             (if input_valid (r1 - 1) (c1 - 1) n then
                                make_move (r1 - 1) (c1 - 1) n;;
                                print_board
                              else mret ());;
                             play int_tail int_all fuel inp3
                         end
                     end
                 end
             end
         end
     end).
Proof. destruct inp; reflexivity. Qed.

(** The solver, run on the puzzle of the program, prints its solution. *)
Lemma solver_on_puzzle fuel out :
  (81 < fuel)%nat →
  solver fuel (State puzzle out) = Ok () (State puzzle (out ++ [puzzle_solution])).
Proof.
  intros Hfuel. pose proof (empties_le puzzle wf9_puzzle) as Hle.
  destruct (solver_spec_count fuel puzzle wf9_puzzle ltac:(lia) out) as (ps & E & HN & Hps).
  rewrite E. do 3 f_equal. apply NoDup_only; [done|].
  intros P. rewrite Hps.
  rewrite (legal_fill_solution puzzle puzzle_solution P wf9_puzzle puzzle_has_solution).
  split; [apply puzzle_solution_unique | intros ->; apply puzzle_has_solution].
Qed.

Section game.
Context {line : Type} (int_tail int_all : line → option Z).
Context (fuel : nat) (Hfuel : (81 < fuel)%nat).

(** The code after the loop, entered with a complete board. *)
Lemma finish_spec G out :
  wf9 G → cells_in 0 9 G → complete G → last out = Some G →
  ∃ v s', finish fuel (State G out) = Ok v s' ∧ ends_with v s'.
Proof.
  intros HG Hin HC Hlast. unfold finish.
  destruct (is_valid_wf9 (State G out) HG) as (b & E & Hb). simpl in Hb.
  rewrite (bind_Ok _ _ _ _ _ E). destruct b.
  - exists SolutionCorrect, (State G out). split; [done|]. split; [|done].
    split; [done|]. intros r c Hr Hc. cbn [board]. split.
    + specialize (Hin r c Hr Hc). specialize (HC r c Hr Hc). lia.
    + by apply Hb.
  - exists SolutionIncorrect, (State puzzle (out ++ [puzzle_solution])).
    split; [|split; [done | apply last_snoc]].
    rewrite bind_run. unfold set_board. cbn [stdout].
    by rewrite bind_run, solver_on_puzzle.
Qed.

Lemma play_spec n :
  ∀ inp G out, (length inp ≤ n)%nat →
    wf9 G → cells_in 0 9 G → last out = Some G →
    ∃ v s', play int_tail int_all fuel inp (State G out) = Ok v s' ∧ ends_with v s'.
Proof.
  induction n as [|n IH]; intros inp G out Hlen HG Hin Hlast;
    rewrite play_unfold;
    destruct (is_complete_wf9 (State G out) HG) as (b & E & Hb); simpl in Hb;
    fold (complete G) in Hb;
    rewrite (bind_Ok _ _ _ _ _ E);
    (destruct b; [apply finish_spec; [done..| by apply (proj1 Hb) | done]|]);
    assert (¬ complete G) as Hnot by (intros HC; by apply (proj2 Hb) in HC);
    assert (∃ v s', mret (M := M) InputExhausted (State G out) = Ok v s' ∧ ends_with v s')
      as Hdry by (exists InputExhausted, (State G out); split; [done|]; simpl; tauto).
  - destruct inp; [done | simpl in Hlen; lia].
  - destruct inp as [|l1 inp1]; [done|]. simpl in Hlen.
    destruct (int_tail l1) as [c1|]; [|apply IH; [lia | done..]].
    destruct inp1 as [|l2 inp2]; [done|]. simpl in Hlen.
    destruct (int_tail l2) as [r1|]; [|apply IH; [lia | done..]].
    destruct inp2 as [|l3 inp3]; [done|]. simpl in Hlen.
    destruct (int_all l3) as [num|]; [|apply IH; [lia | done..]].
    rewrite bind_run.
    destruct (input_valid (r1 - 1) (c1 - 1) num) eqn:Ev.
    + destruct (accepted_move_is_safe_aux G out (r1 - 1) (c1 - 1) num HG Ev)
        as (G' & Em & HG' & Hin').
      rewrite bind_run, Em, print_board_wf9 by done. cbn [board stdout].
      apply IH; [lia | done | by apply Hin' | apply last_snoc].
    + rewrite ret_run. apply IH; [lia | done..].
Qed.

(** X14: the program never fails on the board and always ends in one of
    three ways.  Whatever the lines of input are and however they parse,
    no exception of the board functions escapes from the main block; the
    run ends with 'Solution Correct', and then the board is a solved
    Sudoku and the last board printed; or with 'Solution Incorrect', and
    then the last board printed is the solution of the program's puzzle;
    or with [input] finding no more input, and then the board still has an
    empty cell. *)
Theorem main_ends_well (inp : list line) (s : state) :
  ∃ v s', main int_tail int_all fuel inp s = Ok v s' ∧ ends_with v s'.
Proof.
  unfold main. rewrite bind_run. unfold set_board. rewrite bind_run.
  rewrite print_board_wf9 by apply wf9_puzzle. cbn [board stdout].
  apply (play_spec (length inp)); [done | apply wf9_puzzle | apply puzzle_cells_in |].
  apply last_snoc.
Qed.
End game.

Lemma main_ends_well_witness :
  ∃ v s', main (line := Z) Some Some 82 [3; 1] (State [] []) = Ok v s' ∧ ends_with v s'.
Proof.
  apply (main_ends_well (line := Z) Some Some 82).
  lia.
Defined.

(** Without any input the program prints the puzzle and stops at the first
    prompt. *)
Example main_without_input :
  main (line := Z) Some Some 82 [] (State [] []) = Ok InputExhausted (State puzzle [puzzle]).
Proof. vm_compute. reflexivity. Qed.

(** ** The text of [print_board] *)

Lemma string_length_app (s1 s2 : string) :
  String.length (s1 +:+ s2) = (String.length s1 + String.length s2)%nat.
Proof. induction s1 as [|a s1 IH]; simpl; [done | by rewrite IH]. Qed.

Lemma list_of_length_9 {A} (l : list A) :
  length l = 9%nat →
  ∃ x0 x1 x2 x3 x4 x5 x6 x7 x8, l = [x0; x1; x2; x3; x4; x5; x6; x7; x8].
Proof.
  intros H. do 9 (destruct l as [|? l]; [done|]). destruct l; [|done].
  by repeat eexists.
Qed.

Lemma cells_in_rows lo hi G :
  wf9 G → cells_in lo hi G → Forall (Forall (λ x, lo ≤ x ≤ hi)) G.
Proof.
  intros HG Hin. pose proof HG as [HL HF].
  apply Forall_lookup. intros i row Ei. apply Forall_lookup. intros j x Ej.
  pose proof (lookup_lt_Some _ _ _ Ei) as Hi.
  pose proof (lookup_lt_Some _ _ _ Ej) as Hj.
  pose proof (Forall_lookup_1 _ _ _ _ HF Ei) as HLrow. simpl in HLrow.
  rewrite <- (cell_lookup G (Z.of_nat i) (Z.of_nat j) row x);
    rewrite ?Nat2Z.id; try done; try lia.
  apply Hin; lia.
Qed.

Lemma digit_cases a :
  0 ≤ a ≤ 9 →
  a = 0 ∨ a = 1 ∨ a = 2 ∨ a = 3 ∨ a = 4 ∨ a = 5 ∨ a = 6 ∨ a = 7 ∨ a = 8 ∨ a = 9.
Proof. lia. Qed.

(** A value of 0..9 is shown as one character. *)
Lemma cell_text_char a : 0 ≤ a ≤ 9 → ∃ ch, cell_text a = String ch "".
Proof.
  intros Ha%digit_cases.
  destruct Ha as [->|[->|[->|[->|[->|[->|[->|[->|[->| ->]]]]]]]]]; by eexists.
Qed.

(** Different values of 0..9 are shown differently. *)
Lemma cell_text_inj a b : 0 ≤ a ≤ 9 → 0 ≤ b ≤ 9 → cell_text a = cell_text b → a = b.
Proof.
  intros Ha%digit_cases Hb%digit_cases.
  destruct Ha as [->|[->|[->|[->|[->|[->|[->|[->|[->| ->]]]]]]]]];
    destruct Hb as [->|[->|[->|[->|[->|[->|[->|[->|[->| ->]]]]]]]]];
    first [ reflexivity | vm_compute; discriminate ].
Qed.

Lemma row_text_Some row : (9 ≤ length row)%nat ↔ is_Some (row_text row).
Proof.
  split.
  - intros H. do 9 (destruct row as [|? row]; [simpl in H; lia|]). by eexists.
  - intros [t Ht]. do 9 (destruct row as [|? row]; [done|]). simpl. lia.
Qed.

Lemma rows_text_ok i rows :
  snd (rows_text i rows) = true ↔ Forall (λ row, (9 ≤ length row)%nat) rows.
Proof.
  revert i. induction rows as [|row rows IH]; intros i; simpl.
  - split; [constructor | done].
  - destruct (row_text row) as [t|] eqn:E.
    + specialize (IH (S i)). destruct (rows_text (S i) rows) as [ls ok]. simpl in *.
      rewrite IH. split.
      * intros H. constructor; [|done]. apply row_text_Some. by rewrite E.
      * by intros [_ H]%Forall_cons.
    + simpl. split; [done|]. intros [H _]%Forall_cons.
      apply row_text_Some in H as [t Ht]. congruence.
Qed.

(** X15: [print_board] writes its lines to the end exactly when every row
    has at least nine cells (cells beyond the ninth are not shown); with a
    shorter row it raises, and the state model of [print_board] raises in
    the same cases. *)
Theorem print_board_short_row (G : grid) (out : list grid) :
  (snd (board_text G) = true ↔ Forall (λ row, (9 ≤ length row)%nat) G) ∧
  print_board (State G out) =
    if snd (board_text G) then Ok () (State G (out ++ [G])) else Raise (State G out).
Proof.
  assert (snd (board_text G) = snd (rows_text 0 G)) as Hsnd.
  { unfold board_text. by destruct (rows_text 0 G). }
  rewrite Hsnd. split; [apply rows_text_ok|].
  unfold print_board. cbn [board stdout].
  destruct (snd (rows_text 0 G)) eqn:E.
  - apply rows_text_ok in E. replace (forallb _ G) with true; [done|].
    symmetry. apply forallb_forall. intros row Hrow%list_elem_of_In.
    rewrite Forall_forall in E. by apply bool_decide_eq_true_2, E.
  - replace (forallb _ G) with false; [done|].
    symmetry. apply not_true_is_false. intros H. rewrite forallb_forall in H.
    assert (snd (rows_text 0 G) = true); [|congruence].
    apply rows_text_ok, Forall_forall. intros row Hrow%list_elem_of_In.
    by apply H, bool_decide_eq_true in Hrow.
Qed.

(** The width of line [k] of a printed 9x9 board: the header is 36 wide,
    the lines that show a row are 37 wide and carry a label of 3, the
    other lines are 37 wide. *)
Lemma row_text_width a b c d e f g h i :
  Forall (λ x, 0 ≤ x ≤ 9) [a; b; c; d; e; f; g; h; i] →
  ∃ t, row_text [a; b; c; d; e; f; g; h; i] = Some t ∧ String.length t = 37%nat.
Proof.
  intros H. repeat (apply Forall_cons in H as [?%cell_text_char H]).
  repeat match goal with H : ∃ _, _ |- _ => destruct H as [? H] end.
  eexists. split; [reflexivity|]. unfold segment_text.
  repeat match goal with H : cell_text _ = _ |- _ => rewrite H; clear H end.
  reflexivity.
Qed.

(** X16: the layout of a printed board.  For a 9x9 board with values in
    0..9, [print_board] writes 20 lines: a header of width 36, then lines
    of width 37, those that show a row followed by a label of width 3. *)
Theorem board_text_layout (G : grid) :
  wf9 G → cells_in 0 9 G →
  ∃ ls, board_text G = (ls, true) ∧ length ls = 20%nat ∧
        ∀ k line, ls !! k = Some line → String.length line = line_width k.
Proof.
  intros HG Hin. pose proof (cells_in_rows 0 9 G HG Hin) as HF.
  destruct HG as [HL HFl].
  apply list_of_length_9 in HL as (r0 & r1 & r2 & r3 & r4 & r5 & r6 & r7 & r8 & ->).
  repeat (apply Forall_cons in HFl as [? HFl]).
  repeat match goal with
         | H : length ?r = 9%nat |- _ =>
             apply list_of_length_9 in H as (?&?&?&?&?&?&?&?&?&->)
         end.
  repeat (apply Forall_cons in HF as [(? & ? & ?)%row_text_width HF]).
  unfold board_text. cbn [rows_text].
  repeat match goal with
         | E : row_text _ = Some _ |- _ => rewrite E; clear E
         end.
  eexists. split; [reflexivity|]. split; [reflexivity|].
  intros k line Hk.
  do 20 (destruct k as [|k];
         [injection Hk as <-; rewrite ?string_length_app;
          repeat match goal with
                 | E : String.length _ = 37%nat |- _ => rewrite E; clear E
                 end;
          reflexivity|]).
  done.
Qed.

Lemma board_text_layout_witness :
  ∃ ls, board_text puzzle = (ls, true) ∧ length ls = 20%nat ∧
        ∀ k line, ls !! k = Some line → String.length line = line_width k.
Proof.
  apply (board_text_layout puzzle).
  - split; [reflexivity | repeat constructor].
  - apply puzzle_cells_in.
Defined.

(** A line that shows a row of nine values of 0..9 shows which values. *)
Lemma row_line_inj (row row' : list Z) t t' lab :
  length row = 9%nat → length row' = 9%nat →
  Forall (λ x, 0 ≤ x ≤ 9) row → Forall (λ x, 0 ≤ x ≤ 9) row' →
  row_text row = Some t → row_text row' = Some t' →
  t +:+ lab = t' +:+ lab → row = row'.
Proof.
  intros (a&b&c&d&e&f&g&h&i&->)%list_of_length_9
         (a'&b'&c'&d'&e'&f'&g'&h'&i'&->)%list_of_length_9 HF HF'.
  repeat (apply Forall_cons in HF as [? HF]).
  repeat (apply Forall_cons in HF' as [? HF']).
  intros [= <-] [= <-]. unfold segment_text.
  assert (∀ x y, 0 ≤ x ≤ 9 → 0 ≤ y ≤ 9 →
            (∃ ch, cell_text x = String ch "") ∧ (∃ ch, cell_text y = String ch "") ∧
            (cell_text x = cell_text y → x = y)) as Hc.
  { intros x y Hx Hy. split; [by apply cell_text_char|].
    split; [by apply cell_text_char | by apply cell_text_inj]. }
  destruct (Hc a a') as ([ca Ea] & [ca' Ea'] & Ha); [done..|].
  destruct (Hc b b') as ([cb Eb] & [cb' Eb'] & Hb); [done..|].
  destruct (Hc c c') as ([cc Ec] & [cc' Ec'] & Hcc); [done..|].
  destruct (Hc d d') as ([cd Ed] & [cd' Ed'] & Hd); [done..|].
  destruct (Hc e e') as ([ce Ee] & [ce' Ee'] & He); [done..|].
  destruct (Hc f f') as ([cf Ef] & [cf' Ef'] & Hf); [done..|].
  destruct (Hc g g') as ([cg Eg] & [cg' Eg'] & Hg); [done..|].
  destruct (Hc h h') as ([ch Eh] & [ch' Eh'] & Hh); [done..|].
  destruct (Hc i i') as ([ci Ei] & [ci' Ei'] & Hi); [done..|].
  rewrite Ea, Ea', Eb, Eb', Ec, Ec', Ed, Ed', Ee, Ee', Ef, Ef', Eg, Eg', Eh, Eh', Ei, Ei'
    in *.
  simpl. intros [= -> -> -> -> -> -> -> -> ->].
  by rewrite Ha, Hb, Hcc, Hd, He, Hf, Hg, Hh, Hi.
Qed.

Lemma rows_text_inj i rows rows' :
  Forall (λ row, length row = 9%nat ∧ Forall (λ x, 0 ≤ x ≤ 9) row) rows →
  Forall (λ row, length row = 9%nat ∧ Forall (λ x, 0 ≤ x ≤ 9) row) rows' →
  rows_text i rows = rows_text i rows' → rows = rows'.
Proof.
  intros HF. revert i rows'. induction HF as [|row rows [HL HD] _ IH];
    intros i rows' HF'; destruct HF' as [|row' rows' [HL' HD'] HF']; simpl.
  - done.
  - destruct (proj1 (row_text_Some row') ltac:(lia)) as [t' ->].
    by destruct (rows_text (S i) rows').
  - destruct (proj1 (row_text_Some row) ltac:(lia)) as [t ->].
    by destruct (rows_text (S i) rows).
  - destruct (proj1 (row_text_Some row) ltac:(lia)) as [t Et].
    destruct (proj1 (row_text_Some row') ltac:(lia)) as [t' Et'].
    rewrite Et, Et'. specialize (IH (S i) rows' HF').
    destruct (rows_text (S i) rows) as [ls ok], (rows_text (S i) rows') as [ls' ok'].
    intros [= Ht <- <-]. f_equal; [|by apply IH].
    by apply (row_line_inj row row' t t' (" " +:+ "r" +:+ pretty (S i))).
Qed.

(** X17: nothing is lost on the screen: two 9x9 boards with values in 0..9
    for which [print_board] writes the same lines are the same board. *)
Theorem board_text_inj (G G' : grid) :
  wf9 G → cells_in 0 9 G → wf9 G' → cells_in 0 9 G' →
  board_text G = board_text G' → G = G'.
Proof.
  intros HG Hin HG' Hin' Heq.
  pose proof (cells_in_rows 0 9 G HG Hin) as HF.
  pose proof (cells_in_rows 0 9 G' HG' Hin') as HF'.
  destruct HG as [_ HL], HG' as [_ HL'].
  apply (rows_text_inj 0).
  - apply Forall_forall. intros row Hrow. rewrite Forall_forall in HL, HF. auto.
  - apply Forall_forall. intros row Hrow. rewrite Forall_forall in HL', HF'. auto.
  - unfold board_text in Heq.
    destruct (rows_text 0 G) as [ls ok], (rows_text 0 G') as [ls' ok'].
    by injection Heq as -> ->.
Qed.

Lemma board_text_inj_witness : puzzle = puzzle.
Proof.
  apply (board_text_inj puzzle puzzle).
  - split; [reflexivity | repeat constructor].
  - apply puzzle_cells_in.
  - split; [reflexivity | repeat constructor].
  - apply puzzle_cells_in.
  - reflexivity.
Defined.
